(** * learning-keras: pair samplers, character vocabulary, sequence windower
      and autoregressive text sampler

    A shallow embedding of the bespoke (non-framework) logic of

    - [keras_shared_vision_model.py]  (non-balanced pair sampler),
    - [mnist_shared_vision_model.py]  (balanced pair sampler),
    - [nietzsche_lstm_text_generation.py] (vocabulary, windows, generation,
      interactive prompt),

    together with the properties of the specification that can be settled
    on it.  Python exceptions are modelled by an explicit [result] type,
    numpy's global random generator by an entropy source that is threaded
    through the calls, the standard streams by an explicit [world]. *)

From stdpp Require Import gmap list sorting strings.
From Stdlib Require Import ZArith QArith.

Local Open Scope nat_scope.

(** ** Python exceptions *)

Inductive exn : Set :=
  | ValueError
  | IndexError
  | KeyError
  | ZeroDivisionError
  | EOFError.

Inductive result (A : Type) : Type :=
  | Ok (a : A)
  | Raise (e : exn).
Arguments Ok {A} a.
Arguments Raise {A} e.

Global Instance result_ret : MRet result := λ A a, Ok a.
Global Instance result_bind : MBind result := λ A B f m,
  match m with
  | Ok a => f a
  | Raise e => Raise e
  end.

Definition of_option {A} (e : exn) (o : option A) : result A :=
  match o with
  | Some a => Ok a
  | None => Raise e
  end.

Definition is_Ok {A} (r : result A) : Prop := ∃ a, r = Ok a.

(** ** The numpy primitives the samplers call

    Arrays of rank one are lists; an array of images is a list over an
    abstract type of 28x28x1 rasters. *)

Module np.

(** The state of numpy's global generator: an unbounded supply of raw
    random naturals. *)
Definition rng : Type := nat → nat.

Definition advance (n : nat) (g : rng) : rng := λ k, g (n + k).

(** [np.random.choice(a, size)] for an integer [a]: [size] draws with
    replacement from [np.arange(a)], each raw value of the generator
    reduced to that range.  [a <= 0] raises [ValueError] ("a must be
    greater than 0"); a negative Python [a] behaves like [0] here, which is
    what the truncated subtraction [num_img - 1] of the callers yields.
    (Later releases of numpy let [a <= 0] pass when [size] is zero, where
    the draw is empty.) *)
Definition random_choice (a size : nat) (g : rng) : result (list nat) * rng :=
  if decide (a = 0) then (Raise ValueError, g)
  else (Ok ((λ k, g k `mod` a) <$> seq 0 size), advance size g).

(** [np.take(a, indices, axis=0)] and the fancy indexing [a[indices]]:
    an index outside the array raises [IndexError]. *)
Definition take {A} (a : list A) (indices : list nat) : result (list A) :=
  of_option IndexError (mapM (λ i, a !! i) indices).

(** [(x == y).astype(int)] on two arrays of one length (the callers compare
    two arrays drawn with the same [size]). *)
Definition eq_astype_int (x y : list nat) : list nat :=
  zip_with (λ a b, if decide (a = b) then 1 else 0) x y.

(** [np.nonzero(a)[0]]: the positions of the entries that are not zero,
    in increasing order. *)
Fixpoint nonzero_from (i : nat) (a : list nat) : list nat :=
  match a with
  | [] => []
  | x :: a' =>
      if decide (x = 0) then nonzero_from (S i) a'
      else i :: nonzero_from (S i) a'
  end.
Definition nonzero (a : list nat) : list nat := nonzero_from 0 a.

Definition ones (n : nat) : list nat := replicate n 1.
Definition zeros (rows cols : nat) : list (list nat) :=
  replicate rows (replicate cols 0).

(** [a[indices] = v] for an index array. *)
Definition set_at {A} (a : list A) (indices : list nat) (v : A) : result (list A) :=
  if decide (Forall (λ i, i < length a) indices)
  then Ok (foldl (λ acc i, <[i:=v]> acc) a indices)
  else Raise IndexError.

(** Broadcasting of two index arrays of rank one: equal lengths, or one
    of them of length one; anything else is numpy's
    "shape mismatch: indexing arrays could not be broadcast together". *)
Definition broadcast_indices (rows cols : list nat) : result (list (nat * nat)) :=
  if decide (length rows = length cols) then Ok (zip rows cols)
  else match rows, cols with
       | _, [c] => Ok ((λ r, (r, c)) <$> rows)
       | [r], _ => Ok ((λ c, (r, c)) <$> cols)
       | _, _ => Raise IndexError
       end.

Definition in_bounds2 {A} (a : list (list A)) (p : nat * nat) : bool :=
  match a !! p.1 with
  | Some row => bool_decide (p.2 < length row)
  | None => false
  end.

(** [a[rows, cols] = v] on a matrix. *)
Definition set_at2 {A} (a : list (list A)) (rows cols : list nat) (v : A)
  : result (list (list A)) :=
  rc ← broadcast_indices rows cols;
  if forallb (in_bounds2 a) rc
  then Ok (foldl (λ acc p, alter (λ row, <[p.2:=v]> row) p.1 acc) a rc)
  else Raise IndexError.

Definition arange (n : nat) : list nat := seq 0 n.

End np.

(** ** The oversampled pool

    A pair of drawn indices matches when the two images carry the same
    class label; the counts below are those of the pool that the two index
    arrays describe. *)

Definition is_match (labels : list nat) (p : nat * nat) : Prop :=
  labels !! p.1 = labels !! p.2.

Global Instance is_match_dec labels p : Decision (is_match labels p).
Proof. unfold is_match. apply _. Defined.

Definition match_count (labels da db : list nat) : nat :=
  length (filter (is_match labels) (zip da db)).

Definition nonmatch_count (labels da db : list nat) : nat :=
  length (filter (λ p, ¬ is_match labels p) (zip da db)).

(** The value of [mask_true] (lines 52-53) at a position: one where the
    array of flags is zero, zero elsewhere. *)
Definition negate (x : nat) : nat := if decide (x = 0) then 1 else 0.

(** The pair drawn at position [p] of the pool: its two images and their
    labels. *)
Definition drawn_pair {Img} (imgs : list Img) (labels da db : list nat)
    (p : nat) (ia ib : Img) (la lb : nat) : Prop :=
  ∃ i j, da !! p = Some i ∧ db !! p = Some j ∧
         imgs !! i = Some ia ∧ imgs !! j = Some ib ∧
         labels !! i = Some la ∧ labels !! j = Some lb.

(** ** keras_shared_vision_model.py: the non-balanced pair sampler *)

Module keras_shared_vision_model.
Section sampler.
Context {Img : Type}.

(** The dictionary [data] with its keys as fields. *)
Record data : Type := Data {
  digit_a : list Img;
  digit_b : list Img;
  labels : list nat;
}.

(** The two calls of [np.random.choice] (lines 37-38). *)
Definition draw_indices (num_img : nat) (g : np.rng)
  : result (list nat * list nat) :=
  let '(ra, g) := np.random_choice (num_img - 1) num_img g in
  let '(rb, _) := np.random_choice (num_img - 1) num_img g in
  digit_a_idx ← ra;
  digit_b_idx ← rb;
  Ok (digit_a_idx, digit_b_idx).

Definition get_img_pairs_and_labels
    (imgs : list Img) (labels : list nat) (g : np.rng) : result data :=
  let num_img := length imgs in
  '(digit_a_idx, digit_b_idx) ← draw_indices num_img g;
  digit_a ← np.take imgs digit_a_idx;
  digit_b ← np.take imgs digit_b_idx;
  labels_a ← np.take labels digit_a_idx;
  labels_b ← np.take labels digit_b_idx;
  Ok (Data digit_a digit_b (np.eq_astype_int labels_a labels_b)).

End sampler.
Arguments data : clear implicits.
End keras_shared_vision_model.

(** ** mnist_shared_vision_model.py: the balanced pair sampler *)

Module mnist_shared_vision_model.
Section sampler.
Context {Img : Type}.

Record data : Type := Data {
  labels : list nat;
  digit_a : list Img;
  digit_b : list Img;
  digit_a_labels : list (list nat);
  digit_b_labels : list (list nat);
}.

(** The two calls of [np.random.choice] (lines 40-41). *)
Definition draw_indices (num_img desired_size : nat) (g : np.rng)
  : result (list nat * list nat) :=
  let '(ra, g) := np.random_choice (num_img - 1) (desired_size * 10) g in
  let '(rb, _) := np.random_choice (num_img - 1) (desired_size * 10) g in
  digit_a_idx ← ra;
  digit_b_idx ← rb;
  Ok (digit_a_idx, digit_b_idx).

(** The index set of lines 51-57.  The source's [idx_false] holds the
    positions where [labels] is not zero, that is the matching pairs, and
    [idx_true] the positions of the pairs that do not match. *)
Definition balance (labels : list nat) (half_desired_size : nat)
  : result (list nat) :=
  let idx_false := np.nonzero labels in
  mask_true ← np.set_at (np.ones (length labels)) idx_false 0;
  let idx_true := np.nonzero mask_true in
  let idx_false := take half_desired_size idx_false in
  let idx_true := take half_desired_size idx_true in
  Ok (idx_true ++ idx_false).

Definition get_img_pairs_and_labels
    (imgs : list Img) (labels : list nat) (desired_size : nat) (g : np.rng)
  : result data :=
  let half_desired_size := desired_size / 2 in
  let num_img := length imgs in
  '(digit_a_idx, digit_b_idx) ← draw_indices num_img desired_size g;
  digit_a ← np.take imgs digit_a_idx;
  digit_b ← np.take imgs digit_b_idx;
  labels_a ← np.take labels digit_a_idx;
  labels_b ← np.take labels digit_b_idx;
  let labels := np.eq_astype_int labels_a labels_b in
  idx_images ← balance labels half_desired_size;
  data_labels ← np.take labels idx_images;
  data_digit_a ← np.take digit_a idx_images;
  data_digit_b ← np.take digit_b idx_images;
  let rows := np.arange (half_desired_size * 2) in
  cols_a ← np.take labels_a idx_images;
  digit_a_labels ← np.set_at2 (np.zeros (half_desired_size * 2) 10) rows cols_a 1;
  cols_b ← np.take labels_b idx_images;
  digit_b_labels ← np.set_at2 (np.zeros (half_desired_size * 2) 10) rows cols_b 1;
  Ok (Data data_labels data_digit_a data_digit_b digit_a_labels digit_b_labels).

End sampler.
Arguments data : clear implicits.
End mnist_shared_vision_model.

(** ** nietzsche_lstm_text_generation.py *)

Module nietzsche_lstm_text_generation.

(** Characters are Unicode code points; a Python [str] is a list of them. *)
Abbreviation char := N.
Abbreviation str := (list N).

(** The code points of an ASCII literal. *)
Definition codes (s : string) : str :=
  Ascii.N_of_ascii <$> String.list_ascii_of_string s.

(** A matrix of zeros and ones: the one-hot arrays [np.zeros(..., dtype=bool)]
    of the windower and the array [x_pred] of the generator, whose entries
    are only ever [0] and [1]. *)
Abbreviation matrix := (list (list bool)).

(** What the class gets from outside the repository: [str.lower], the
    builtin [int] on a string ([None] stands for its [ValueError]), the
    trained model's [predict], and the random draw of [_sample], which turns
    the predictions and a temperature into an index with the help of the
    state [draws] of numpy's generator. *)
Class Runtime : Type := {
  lower : str → str;
  int : str → option Z;
  preds : Type;
  predict : matrix → preds;
  _sample : preds → Q → nat → nat;
}.

(** *** The object *)

Record TextGeneration : Type := {
  _sentence_char_len : nat;
  _text : str;
  _num_chars : nat;
  _indices_char_dict : gmap nat N;
  _char_indices_dict : gmap N nat;
  _sentences : list (list (list bool));
  _next_chars : list (list bool);
}.

(** The fields as [__init__] leaves them before the corpus is indexed
    ([None] in the source; every field is assigned before it is read). *)
Definition blank (text : str) (sentence_char_len : nat) : TextGeneration :=
  {| _sentence_char_len := sentence_char_len;
     _text := text;
     _num_chars := 0;
     _indices_char_dict := ∅;
     _char_indices_dict := ∅;
     _sentences := [];
     _next_chars := [] |}.

(** *** _generate_char_index *)

(** [sorted] on a list of one-character strings: code-point order. *)
Definition sorted (l : list N) : list N := merge_sort N.le l.

(** [list(set(text))]. *)
Definition list_set (text : str) : list N :=
  elements (list_to_set text : gset N).

Definition enumerate {A} (l : list A) : list (nat * A) :=
  imap (λ i c, (i, c)) l.

(** [dict(items)]: the items are inserted from left to right. *)
Definition dict `{Countable K} {V} (items : list (K * V)) : gmap K V :=
  foldl (λ m kv, <[kv.1:=kv.2]> m) ∅ items.

Definition _generate_char_index (self : TextGeneration) : TextGeneration :=
  let chars := sorted (list_set (_text self)) in
  {| _sentence_char_len := _sentence_char_len self;
     _text := _text self;
     _num_chars := length chars;
     _indices_char_dict := dict (enumerate chars);
     _char_indices_dict := dict ((λ ic, (ic.2, ic.1)) <$> enumerate chars);
     _sentences := _sentences self;
     _next_chars := _next_chars self |}.

(** *** One-hot encoding *)

(** [m[t, j] = 1]. *)
Definition set_entry (m : list (list bool)) (t j : nat) : result (list (list bool)) :=
  match m !! t with
  | Some row =>
      if decide (j < length row) then Ok (<[t:=<[j:=true]> row]> m)
      else Raise IndexError
  | None => Raise IndexError
  end.

(** [for t, char in enumerate(chars): m[t, self._char_indices_dict[char]] = 1],
    the loop of [vectorize_chars] (lines 111-112) and of [generate_text]
    (lines 197-198). *)
Fixpoint one_hot_fill (self : TextGeneration) (t : nat) (chars : str)
    (m : list (list bool)) : result (list (list bool)) :=
  match chars with
  | [] => Ok m
  | c :: chars' =>
      j ← of_option KeyError (_char_indices_dict self !! c);
      m ← set_entry m t j;
      one_hot_fill self (S t) chars' m
  end.

Definition zeros (rows cols : nat) : list (list bool) :=
  replicate rows (replicate cols false).

Definition vectorize_chars (self : TextGeneration) (char_string : str)
  : result (list (list bool)) :=
  one_hot_fill self 0 char_string
    (zeros (length char_string) (_num_chars self)).

(** *** _generate_training_data *)

(** [range(0, stop, step)] for a positive [step]. *)
Fixpoint range_from (fuel i stop step : nat) : list nat :=
  match fuel with
  | 0 => []
  | S fuel' =>
      if decide (i < stop) then i :: range_from fuel' (i + step) stop step
      else []
  end.
Definition range (stop step : nat) : list nat := range_from stop 0 stop step.

(** [sentences[k] = v] for a matrix [v]: the row index must exist and [v]
    must broadcast to the shape of a row block. *)
Definition set_block (sentences : list (list (list bool))) (k : nat)
    (v : list (list bool)) : result (list (list (list bool))) :=
  match sentences !! k with
  | None => Raise IndexError
  | Some old =>
      if decide (length v = length old) then Ok (<[k:=v]> sentences)
      else match v with
           | [row] => Ok (<[k:=replicate (length old) row]> sentences)
           | _ => Raise ValueError
           end
  end.

(** [next_chars[k] = v] for a matrix [v] of one row. *)
Definition set_row (next_chars : list (list bool)) (k : nat)
    (v : list (list bool)) : result (list (list bool)) :=
  match next_chars !! k, v with
  | None, _ => Raise IndexError
  | Some _, [row] => Ok (<[k:=row]> next_chars)
  | Some _, _ => Raise ValueError
  end.

(** The body of the loop of lines 123-127. *)
Definition window_step (self : TextGeneration) (step : nat)
    (acc : list (list (list bool)) * list (list bool)) (i : nat)
  : result (list (list (list bool)) * list (list bool)) :=
  let '(sentences, next_chars) := acc in
  let sentence_string := take (_sentence_char_len self) (drop i (_text self)) in
  next_char_string ← of_option IndexError (_text self !! (i + _sentence_char_len self));
  v ← vectorize_chars self sentence_string;
  sentences ← set_block sentences (i / step) v;
  v ← vectorize_chars self [next_char_string];
  next_chars ← set_row next_chars (i / step) v;
  Ok (sentences, next_chars).

Fixpoint for_result {A S} (l : list A) (body : S → A → result S) (s : S) : result S :=
  match l with
  | [] => Ok s
  | x :: l' => s ← body s x; for_result l' body s
  end.

(** [int(((text_char_len - sentence_char_len)/step)+1)]: the quotient is
    taken exactly and then truncated towards zero. *)
Definition num_sentences (text_char_len sentence_char_len step : nat) : Z :=
  ((Z.of_nat text_char_len - Z.of_nat sentence_char_len + Z.of_nat step)
     `quot` Z.of_nat step)%Z.

Definition _generate_training_data (self : TextGeneration) (step : nat)
  : result TextGeneration :=
  let text_char_len := length (_text self) in
  if decide (step = 0) then Raise ZeroDivisionError else
  let n := num_sentences text_char_len (_sentence_char_len self) step in
  if decide (n < 0)%Z then Raise ValueError else
  let sentences :=
    replicate (Z.to_nat n) (zeros (_sentence_char_len self) (_num_chars self)) in
  let next_chars := replicate (Z.to_nat n) (replicate (_num_chars self) false) in
  '(sentences, next_chars) ←
    for_result (range (text_char_len - _sentence_char_len self) step)
      (window_step self step) (sentences, next_chars);
  Ok {| _sentence_char_len := _sentence_char_len self;
        _text := _text self;
        _num_chars := _num_chars self;
        _indices_char_dict := _indices_char_dict self;
        _char_indices_dict := _char_indices_dict self;
        _sentences := sentences;
        _next_chars := next_chars |}.

(** [__init__] without the download of the corpus and the definition of
    the model: the corpus is indexed, then cut into windows. *)
Definition init (text : str) (sentence_char_len step : nat) : result TextGeneration :=
  _generate_training_data (_generate_char_index (blank text sentence_char_len)) step.

(** *** Standard streams and the generator's state *)

Inductive event : Type :=
  | PrintLine (s : str)           (* [print(s)] *)
  | PrintDiversity (d : Q)        (* [print('----- diversity:', d)] *)
  | StdoutWrite (s : str)         (* [sys.stdout.write(s)] *)
  | StdoutFlush                   (* [sys.stdout.flush()] *)
  | InputPrompt (s : str).        (* the message of [input(s)] *)

Record world : Type := World {
  stdout : list event;   (* what has been written, oldest first *)
  draws : nat;           (* how many random draws have been made *)
}.

(** Computations that write, draw and may raise: an exception leaves the
    world as it was when it was raised. *)
Definition py (A : Type) : Type := world → result A * world.

Global Instance py_ret : MRet py := λ A a w, (Ok a, w).
Global Instance py_bind : MBind py := λ A B f m w,
  match m w with
  | (Ok a, w') => f a w'
  | (Raise e, w') => (Raise e, w')
  end.

Definition lift {A} (r : result A) : py A := λ w, (r, w).
Definition emit (e : event) : py unit :=
  λ w, (Ok tt, World (stdout w ++ [e]) (draws w)).
Definition draw : py nat :=
  λ w, (Ok (draws w), World (stdout w) (S (draws w))).

Fixpoint for_py {A} (l : list A) (body : A → py unit) : py unit :=
  match l with
  | [] => mret tt
  | x :: l' => body x;; for_py l' body
  end.

(** *** generate_text *)

Definition quote : N := 34%N.
Definition diversities : list Q := [2 # 10; 5 # 10; 1; 12 # 10]%Q.
Definition default_seed : str := codes "he who has a why to live can bear almost".
Definition seed_too_short : str :=
  codes "Please input a seed of at least 40 characters".

Section generation.
Context `{Runtime}.

(** The loop [for i in range(num_char_to_generate)] of lines 195-207,
    with the locals [generated] and [sentence] as its state. *)
Fixpoint generate_chars (self : TextGeneration) (diversity : Q) (n : nat)
    (generated sentence : str) : py (str * str) :=
  match n with
  | 0 => mret (generated, sentence)
  | S n' =>
      x_pred ← lift (one_hot_fill self 0 sentence
                       (zeros (_sentence_char_len self) (_num_chars self)));
      let preds := predict x_pred in
      state ← draw;
      let next_index := _sample preds diversity state in
      next_char ← lift (of_option KeyError (_indices_char_dict self !! next_index));
      let generated := generated ++ [next_char] in
      let sentence := drop 1 sentence ++ [next_char] in
      emit (StdoutWrite [next_char]);;
      emit StdoutFlush;;
      generate_chars self diversity n' generated sentence
  end.

(** The body of [for diversity in [0.2, 0.5, 1.0, 1.2]] (lines 189-208). *)
Definition generation_run (self : TextGeneration) (raw_seed seed : str)
    (num_char_to_generate : Z) (diversity : Q) : py unit :=
  let sentence := seed in
  emit (PrintDiversity diversity);;
  let generated := [] ++ sentence in
  emit (PrintLine (codes "----- Generating with seed: " ++ [quote] ++ raw_seed ++ [quote]));;
  emit (StdoutWrite raw_seed);;
  generate_chars self diversity (Z.to_nat num_char_to_generate) generated sentence;;
  emit (PrintLine []).

Definition generate_text (self : TextGeneration) (raw_seed : option str)
    (num_char_to_generate : Z) : py unit :=
  let raw_seed := default default_seed raw_seed in
  let raw_seed := lower raw_seed in
  if decide (40 < length raw_seed) then
    let seed := drop (length raw_seed - 40) raw_seed in
    for_py diversities (generation_run self raw_seed seed num_char_to_generate)
  else if decide (length raw_seed < 40) then
    emit (PrintLine seed_too_short)
  else
    let seed := raw_seed in
    for_py diversities (generation_run self raw_seed seed num_char_to_generate).

(** *** prompt

    The two inner [while] loops read one line per iteration, so the
    session is a recursion on the lines of standard input: [raw_seed] is
    [None] while the first loop runs and holds the accepted seed while the
    second one runs.  [input] at the end of the input raises [EOFError]. *)
Definition input_text_message : str := codes "Please input seed: ".
Definition input_number_of_characters : str :=
  codes "Please indicate the number of characters you wish to generate: ".

Fixpoint prompt_loop (self : TextGeneration) (raw_seed : option str)
    (stdin : list str) : py unit :=
  match raw_seed with
  | None =>
      emit (InputPrompt input_text_message);;
      match stdin with
      | [] => lift (Raise EOFError)
      | line :: stdin' =>
          if decide (line = codes "exit") then emit (PrintLine (codes "Exiting..."))
          else if decide (length line < 40) then
            emit (PrintLine seed_too_short);;
            prompt_loop self None stdin'
          else prompt_loop self (Some line) stdin'
      end
  | Some seed =>
      emit (InputPrompt input_number_of_characters);;
      match stdin with
      | [] => lift (Raise EOFError)
      | line :: stdin' =>
          if decide (line = codes "exit") then emit (PrintLine (codes "Exiting..."))
          else match int line with
               | None =>
                   emit (PrintLine (codes "Please enter an integer"));;
                   prompt_loop self (Some seed) stdin'
               | Some num_char_to_generate =>
                   if decide (num_char_to_generate < 0)%Z then
                     emit (PrintLine (codes "Please enter an positive integer"));;
                     prompt_loop self (Some seed) stdin'
                   else
                     emit (PrintLine (codes "Generating text..."));;
                     generate_text self (Some seed) num_char_to_generate;;
                     prompt_loop self None stdin'
               end
      end
  end.

Definition prompt (self : TextGeneration) (stdin : list str) : py unit :=
  prompt_loop self None stdin.

End generation.

(** A runtime for running the definitions on ASCII input: [lower] maps
    [A-Z] to [a-z], [int] reads an optional sign followed by decimal
    digits, as [str.lower] and [int] do on such strings; the model always
    predicts the index that the generator's state selects. *)
Definition ascii_lower (c : N) : N :=
  if decide (65 ≤ c ≤ 90)%N then (c + 32)%N else c.

Definition digit_value (c : N) : option Z :=
  if decide (48 ≤ c ≤ 57)%N then Some (Z.of_N c - 48)%Z else None.

Fixpoint decimal (acc : Z) (s : str) : option Z :=
  match s with
  | [] => Some acc
  | c :: s' => d ← digit_value c; decimal (10 * acc + d)%Z s'
  end.

Definition ascii_int (s : str) : option Z :=
  match s with
  | [] => None
  | c :: s' =>
      if decide (c = 45%N) then
        match s' with [] => None | _ => Z.opp <$> decimal 0 s' end
      else if decide (c = 43%N) then
        match s' with [] => None | _ => decimal 0 s' end
      else decimal 0 s
  end.

Definition ascii_runtime (pick : nat → nat) : Runtime :=
  {| lower := fmap ascii_lower;
     int := ascii_int;
     preds := unit;
     predict := λ _, tt;
     _sample := λ _ _ seed, pick seed |}.

(** *** Notions used to state the properties *)

(** The one-hot row of a character. *)
Definition one_hot (self : TextGeneration) (c : N) : list bool :=
  match _char_indices_dict self !! c with
  | Some j => <[j:=true]> (replicate (_num_chars self) false)
  | None => replicate (_num_chars self) false
  end.

(** A character that the vocabulary of the object indexes. *)
Definition known (self : TextGeneration) (c : N) : Prop :=
  ∃ j, _char_indices_dict self !! c = Some j ∧ j < _num_chars self.

Definition ceil_div (a b : nat) : nat := (a + b - 1) / b.

(** The encoded [i]-th window and its encoded target. *)
Definition window_sentence (self : TextGeneration) (step i : nat) : list (list bool) :=
  one_hot self <$> take (_sentence_char_len self) (drop (i * step) (_text self)).

Definition window_target (self : TextGeneration) (step i : nat) : list bool :=
  from_option (one_hot self) [] (_text self !! (i * step + _sentence_char_len self)).

(** The text that [sys.stdout.write] has put on standard output. *)
Definition written (evs : list event) : str :=
  flat_map (λ e, match e with StdoutWrite s => s | _ => [] end) evs.

Definition char_events (cs : str) : list event :=
  flat_map (λ c, [StdoutWrite [c]; StdoutFlush]) cs.

(** What one generation run that samples the characters [cs] writes. *)
Definition run_events (raw_seed : str) (d : Q) (cs : str) : list event :=
  [PrintDiversity d;
   PrintLine (codes "----- Generating with seed: " ++ [quote] ++ raw_seed ++ [quote]);
   StdoutWrite raw_seed]
  ++ char_events cs ++ [PrintLine []].

Definition say (evs : list event) (w : world) : world :=
  World (stdout w ++ evs) (draws w).

(** The sampler only returns indices of the vocabulary. *)
Definition sampler_ok `{Runtime} (self : TextGeneration) : Prop :=
  ∀ p d n, ∃ c, _indices_char_dict self !! _sample p d n = Some c ∧ known self c.

(** The array that [generate_text] predicts from (lines 194-196): the
    one-hot rows of the window, padded with zero rows up to the window
    length of the object. *)
Definition encoded_window (self : TextGeneration) (window : str) : list (list bool) :=
  (one_hot self <$> window)
  ++ zeros (_sentence_char_len self - length window) (_num_chars self).

(** The character sampled from the prediction on a window (lines 198-200). *)
Definition sampled `{Runtime} (self : TextGeneration) (d : Q) (state : nat)
    (window : str) : option N :=
  _indices_char_dict self !! _sample (predict (encoded_window self window)) d state.

(** What a generation run prints before the first character is sampled. *)
Definition run_header (raw_seed : str) (d : Q) : list event :=
  [PrintDiversity d;
   PrintLine (codes "----- Generating with seed: " ++ [quote] ++ raw_seed ++ [quote]);
   StdoutWrite raw_seed].

(** A line that the prompt for the number of characters rejects. *)
Definition rejected_count `{Runtime} (line : str) : Prop :=
  line ≠ codes "exit" ∧ (int line = None ∨ ∃ n, int line = Some n ∧ (n < 0)%Z).

(** *** Objects to run the definitions on *)

Definition example_corpus : str :=
  codes "he who has a why to live can bear almost any how. ".

Definition example_object : TextGeneration :=
  match init example_corpus 40 3 with
  | Ok self => self
  | Raise _ => blank [] 0
  end.

(** The same corpus with windows of fifty characters. *)
Definition wide_object : TextGeneration :=
  match init example_corpus 50 3 with
  | Ok self => self
  | Raise _ => blank [] 0
  end.

Definition cyclic_text (T : nat) : str :=
  (λ i, N.of_nat (97 + i `mod` 5)) <$> seq 0 T.

End nietzsche_lstm_text_generation.

(** * Properties of the pair samplers *)

(** ** Facts about the numpy primitives *)

Section np_facts.
Context {A : Type}.
Implicit Types (a : list A) (idx : list nat).

Lemma random_choice_Ok n size g l g' :
  np.random_choice n size g = (Ok l, g') →
  length l = size ∧ Forall (λ i, i < n) l ∧ g' = np.advance size g.
Proof.
  unfold np.random_choice. destruct (decide (n = 0)) as [|Hn]; [done|].
  intros [= <- <-]. rewrite length_fmap, length_seq. split_and!; [done| |done].
  apply Forall_fmap, Forall_forall. intros k _. simpl.
  apply Nat.mod_upper_bound. done.
Qed.

Lemma random_choice_pos n size g :
  n ≠ 0 → ∃ l, np.random_choice n size g = (Ok l, np.advance size g).
Proof. intros Hn. unfold np.random_choice. rewrite decide_False by done. eauto. Qed.

Lemma take_Ok a idx r :
  np.take a idx = Ok r ↔ Forall2 (λ i x, a !! i = Some x) idx r.
Proof.
  unfold np.take. rewrite <-mapM_Some.
  destruct (mapM _ idx); simpl; split; congruence.
Qed.

Lemma take_total a idx :
  Forall (λ i, i < length a) idx → ∃ r, np.take a idx = Ok r.
Proof.
  intros Hidx. unfold np.take.
  destruct (mapM_is_Some_2 (λ i, a !! i) idx) as [r Hr].
  - eapply Forall_impl; [done|]. intros i Hi. by apply lookup_lt_is_Some_2.
  - exists r. by rewrite Hr.
Qed.

Lemma take_length a idx r : np.take a idx = Ok r → length r = length idx.
Proof. rewrite take_Ok. intros HF. symmetry. by eapply Forall2_length. Qed.

Lemma take_lookup a idx r k i :
  np.take a idx = Ok r → idx !! k = Some i → r !! k = a !! i.
Proof.
  rewrite take_Ok. intros HF Hk.
  destruct (Forall2_lookup_l _ _ _ _ _ HF Hk) as (x & -> & ->). done.
Qed.

Lemma take_constant a idx v :
  Forall (λ i, a !! i = Some v) idx → np.take a idx = Ok (replicate (length idx) v).
Proof.
  intros HF. apply take_Ok. induction HF; simpl; constructor; auto.
Qed.

Lemma take_app a idx1 idx2 r1 r2 :
  np.take a idx1 = Ok r1 → np.take a idx2 = Ok r2 →
  np.take a (idx1 ++ idx2) = Ok (r1 ++ r2).
Proof. rewrite !take_Ok. apply Forall2_app. Qed.
End np_facts.

Section nonzero_facts.
Implicit Types (a idx : list nat).

Lemma nonzero_from_elem i a k :
  k ∈ np.nonzero_from i a ↔ ∃ x, i ≤ k ∧ a !! (k - i) = Some x ∧ x ≠ 0.
Proof.
  revert i. induction a as [|y a IH]; intros i; simpl.
  - split; [by intros ?%elem_of_nil | by intros (? & ? & ? & ?)].
  - assert (k ∈ np.nonzero_from (S i) a ↔
            ∃ x, i < k ∧ (y :: a) !! (k - i) = Some x ∧ x ≠ 0) as Htl.
    { rewrite IH. split; intros (x & Hk & Hx & Hnz); exists x.
      - split_and!; [lia| |done]. by replace (k - i) with (S (k - S i)) by lia.
      - split_and!; [lia| |done]. by replace (k - i) with (S (k - S i)) in Hx by lia. }
    destruct (decide (y = 0)) as [->|Hy].
    + rewrite Htl. split; intros (x & Hk & Hx & Hnz); exists x.
      * split_and!; [lia|done|done].
      * split_and!; [|done|done].
        destruct (decide (k = i)) as [->|]; [|lia].
        rewrite Nat.sub_diag in Hx. simpl in Hx. congruence.
    + rewrite elem_of_cons, Htl. split.
      * intros [->|(x & Hk & Hx & Hnz)].
        -- exists y. rewrite Nat.sub_diag. done.
        -- exists x. split_and!; [lia|done|done].
      * intros (x & Hk & Hx & Hnz).
        destruct (decide (k = i)) as [->|]; [by left|right].
        exists x. split_and!; [lia|done|done].
Qed.

Lemma nonzero_elem a k : k ∈ np.nonzero a ↔ ∃ x, a !! k = Some x ∧ x ≠ 0.
Proof.
  unfold np.nonzero. rewrite nonzero_from_elem, Nat.sub_0_r.
  split; [intros (x & _ & ? & ?) | intros (x & ? & ?)]; exists x; auto with lia.
Qed.

Lemma nonzero_from_length i a :
  length (np.nonzero_from i a) = length (filter (λ x, x ≠ 0) a).
Proof.
  revert i. induction a as [|y a IH]; intros i; simpl; [done|].
  rewrite filter_cons. destruct (decide (y = 0)), (decide (y ≠ 0)); simpl;
    rewrite ?IH; done.
Qed.

Lemma nonzero_length a : length (np.nonzero a) = length (filter (λ x, x ≠ 0) a).
Proof. apply nonzero_from_length. Qed.

Lemma nonzero_bound a : Forall (λ k, k < length a) (np.nonzero a).
Proof.
  apply Forall_forall. intros k (x & Hx & _)%nonzero_elem.
  by eapply lookup_lt_Some.
Qed.

Lemma set_at_lookup {A} (a : list A) idx v :
  Forall (λ i, i < length a) idx →
  ∃ r, np.set_at a idx v = Ok r ∧ length r = length a ∧
       ∀ k, r !! k = if decide (k ∈ idx) then Some v else a !! k.
Proof.
  intros Hidx. unfold np.set_at. case_decide as Hd; [clear Hd|done].
  eexists. split; [done|].
  revert a Hidx. induction idx as [|i idx IH]; intros a Hidx; cbn [foldl].
  - split; [done|]. intros k. rewrite decide_False; [done|]. apply not_elem_of_nil.
  - apply Forall_cons in Hidx as [Hi Hidx].
    destruct (IH (<[i:=v]> a)) as [Hlen Hlk].
    { by rewrite length_insert. }
    rewrite length_insert in Hlen. split; [done|].
    intros k. rewrite Hlk.
    destruct (decide (k ∈ idx)) as [Hin|Hnin].
    + rewrite decide_True; [done|]. by right.
    + destruct (decide (k = i)) as [->|Hne].
      * rewrite decide_True by left. by apply list_lookup_insert_eq.
      * rewrite decide_False.
        -- by apply list_lookup_insert_ne.
        -- by intros [?|?]%elem_of_cons.
Qed.

Lemma mask_of_nonzero a :
  np.set_at (np.ones (length a)) (np.nonzero a) 0 = Ok (negate <$> a).
Proof.
  destruct (set_at_lookup (np.ones (length a)) (np.nonzero a) 0)
    as (r & Hr & Hlen & Hlk).
  { unfold np.ones. rewrite length_replicate. apply nonzero_bound. }
  rewrite Hr. f_equal. apply list_eq. intros k. rewrite Hlk, list_lookup_fmap.
  destruct (decide (k ∈ np.nonzero a)) as [Hin|Hnin].
  - apply nonzero_elem in Hin as (x & -> & Hx). simpl. unfold negate.
    by rewrite decide_False.
  - unfold np.ones. destruct (a !! k) as [x|] eqn:Hk; simpl.
    + rewrite lookup_replicate_2 by (by eapply lookup_lt_Some).
      unfold negate. destruct (decide (x = 0)); [done|].
      exfalso. apply Hnin, nonzero_elem. eauto.
    + apply lookup_replicate_None. apply lookup_ge_None in Hk. lia.
Qed.

Lemma nonzero_negate_elem a k : k ∈ np.nonzero (negate <$> a) ↔ a !! k = Some 0.
Proof.
  rewrite nonzero_elem, list_lookup_fmap. split.
  - intros (x & Hx & Hnz). destruct (a !! k) as [y|]; simpl in *; [|done].
    injection Hx as <-. unfold negate in Hnz. destruct (decide (y = 0)); congruence.
  - intros ->. exists 1. done.
Qed.

Lemma nonzero_negate_length a :
  length (np.nonzero (negate <$> a)) = length (filter (λ x, x = 0) a).
Proof.
  rewrite nonzero_length. induction a as [|y a IH]; [done|].
  rewrite fmap_cons. destruct (decide (y = 0)) as [->|Hy].
  - rewrite !filter_cons_True by done. simpl. by rewrite IH.
  - assert (negate y = 0) as -> by (unfold negate; by rewrite decide_False).
    rewrite filter_cons_False by auto. by rewrite filter_cons_False.
Qed.
End nonzero_facts.

Section balance_facts.
Implicit Types (labels da db la lb flags : list nat).

Lemma flags_binary la lb : Forall (λ x, x = 0 ∨ x = 1) (np.eq_astype_int la lb).
Proof.
  unfold np.eq_astype_int. revert lb.
  induction la as [|x la IH]; intros [|y lb]; simpl; try constructor; auto.
  destruct (decide (x = y)); auto.
Qed.

Lemma flags_length la lb :
  length la = length lb → length (np.eq_astype_int la lb) = length la.
Proof. intros Hl. unfold np.eq_astype_int. rewrite length_zip_with. lia. Qed.

Lemma flags_lookup la lb k x y :
  la !! k = Some x → lb !! k = Some y →
  np.eq_astype_int la lb !! k = Some (if decide (x = y) then 1 else 0).
Proof.
  intros Hx Hy. unfold np.eq_astype_int. rewrite lookup_zip_with, Hx. simpl.
  by rewrite Hy.
Qed.

Lemma flags_counts labels da db la lb :
  np.take labels da = Ok la → np.take labels db = Ok lb →
  length (filter (λ x, x ≠ 0) (np.eq_astype_int la lb)) = match_count labels da db ∧
  length (filter (λ x, x = 0) (np.eq_astype_int la lb)) = nonmatch_count labels da db.
Proof.
  rewrite !take_Ok. unfold match_count, nonmatch_count, np.eq_astype_int.
  intros Ha. revert db lb.
  induction Ha as [|i x da la Hi Ha IH]; intros db lb Hb; [done|].
  destruct Hb as [|j y db lb Hj Hb]; [done|].
  destruct (IH _ _ Hb) as [IH1 IH0]. cbn [zip_with].
  assert (is_match labels (i, j) ↔ x = y) as Hm.
  { unfold is_match. simpl. rewrite Hi, Hj. split; congruence. }
  destruct (decide (x = y)) as [Hxy|Hxy].
  - rewrite (filter_cons_True _ 1) by done.
    rewrite (filter_cons_False _ 1) by auto.
    rewrite (filter_cons_True (is_match labels)) by (by apply Hm).
    rewrite (filter_cons_False (λ p, ¬ is_match labels p)) by (intros Hn; by apply Hn, Hm).
    simpl. by rewrite IH1, IH0.
  - rewrite (filter_cons_False _ 0) by auto.
    rewrite (filter_cons_True _ 0) by done.
    rewrite (filter_cons_False (is_match labels)) by (by rewrite Hm).
    rewrite (filter_cons_True (λ p, ¬ is_match labels p)) by (by rewrite Hm).
    simpl. by rewrite IH1, IH0.
Qed.

Lemma counts_total labels da db :
  match_count labels da db + nonmatch_count labels da db = length (zip da db).
Proof.
  unfold match_count, nonmatch_count.
  rewrite <-length_app. apply Permutation_length, filter_app_complement.
Qed.

(** The index set of the balanced sampler: the first [h] pairs that do
    not match, then the first [h] pairs that match. *)
Lemma balance_spec flags h :
  Forall (λ x, x = 0 ∨ x = 1) flags →
  let n0 := length (filter (λ x, x = 0) flags) in
  let n1 := length (filter (λ x, x ≠ 0) flags) in
  ∃ idx,
    mnist_shared_vision_model.balance flags h = Ok idx ∧
    Forall (λ k, k < length flags) idx ∧
    length idx = h `min` n0 + h `min` n1 ∧
    np.take flags idx = Ok (replicate (h `min` n0) 0 ++ replicate (h `min` n1) 1).
Proof.
  intros Hbin n0 n1. unfold mnist_shared_vision_model.balance.
  rewrite mask_of_nonzero. cbn [mbind result_bind].
  eexists. split; [done|].
  assert (Forall (λ k, flags !! k = Some 0) (take h (np.nonzero (negate <$> flags)))) as H0.
  { apply Forall_take, Forall_forall. intros k. by rewrite nonzero_negate_elem. }
  assert (Forall (λ k, flags !! k = Some 1) (take h (np.nonzero flags))) as H1.
  { apply Forall_take, Forall_forall. intros k (x & Hx & Hnz)%nonzero_elem.
    rewrite Forall_forall in Hbin.
    destruct (Hbin x) as [->| ->]; [by eapply list_elem_of_lookup_2|done|done]. }
  assert (length (take h (np.nonzero (negate <$> flags))) = h `min` n0) as Hl0.
  { by rewrite length_take, nonzero_negate_length. }
  assert (length (take h (np.nonzero flags)) = h `min` n1) as Hl1.
  { by rewrite length_take, nonzero_length. }
  split_and!.
  - apply Forall_app. split.
    + eapply Forall_impl; [exact H0|]. intros k Hk%lookup_lt_Some. exact Hk.
    + eapply Forall_impl; [exact H1|]. intros k Hk%lookup_lt_Some. exact Hk.
  - rewrite length_app. by rewrite Hl0, Hl1.
  - apply take_app.
    + rewrite <-Hl0. by apply take_constant.
    + rewrite <-Hl1. by apply take_constant.
Qed.
End balance_facts.

(** One step through a sequence of calls that return. *)
Ltac step H := rewrite H; cbn [mbind result_bind].

Section sampler_facts.
Context {Img : Type}.
Implicit Types (imgs : list Img) (labels da db : list nat).

Lemma set_at2_shape_mismatch {A} (a : list (list A)) rows cols v :
  length rows ≠ length cols → length rows ≠ 1 → length cols ≠ 1 →
  np.set_at2 a rows cols v = Raise IndexError.
Proof.
  intros Hne Hr Hc. unfold np.set_at2, np.broadcast_indices.
  rewrite decide_False by done.
  destruct rows as [|r [|r' rows]], cols as [|c [|c' cols]]; simpl in *; done.
Qed.

Lemma set_at2_one_hot n cols :
  length cols = n → Forall (λ c, c < 10) cols →
  ∃ r, np.set_at2 (np.zeros n 10) (np.arange n) cols 1 = Ok r.
Proof.
  intros Hlen Hcols. unfold np.set_at2, np.broadcast_indices, np.arange.
  rewrite decide_True by (by rewrite length_seq).
  cbn [mbind result_bind].
  assert (forallb (np.in_bounds2 (np.zeros n 10)) (zip (seq 0 n) cols) = true) as ->;
    [|eauto].
  apply forallb_forall. intros [r c] Hin%list_elem_of_In.
  apply elem_of_zip_l in Hin as Hr. apply elem_of_zip_r in Hin as Hc. simpl in *.
  apply elem_of_seq in Hr. rewrite Forall_forall in Hcols.
  unfold np.in_bounds2, np.zeros. simpl.
  rewrite lookup_replicate_2 by lia.
  apply bool_decide_eq_true. by apply Hcols.
Qed.

Lemma keras_draw_indices_Ok N g da db :
  keras_shared_vision_model.draw_indices N g = Ok (da, db) →
  2 ≤ N ∧ length da = N ∧ length db = N ∧
  Forall (λ i, i < N - 1) da ∧ Forall (λ i, i < N - 1) db.
Proof.
  unfold keras_shared_vision_model.draw_indices, np.random_choice.
  destruct (decide (N - 1 = 0)) as [|Hn]; [done|]. cbn [mbind result_bind].
  intros [= <- <-]. rewrite !length_fmap, !length_seq.
  split_and!; [lia|done|done| |];
    apply Forall_fmap, Forall_forall; intros k _; simpl;
    by apply Nat.mod_upper_bound.
Qed.

Lemma keras_draw_indices_total N g :
  2 ≤ N → ∃ da db, keras_shared_vision_model.draw_indices N g = Ok (da, db).
Proof.
  intros HN. unfold keras_shared_vision_model.draw_indices, np.random_choice.
  destruct (decide (N - 1 = 0)) as [|Hn]; [lia|]. eexists _, _. reflexivity.
Qed.

Lemma mnist_draw_indices_Ok N D g da db :
  mnist_shared_vision_model.draw_indices N D g = Ok (da, db) →
  2 ≤ N ∧ length da = D * 10 ∧ length db = D * 10 ∧
  Forall (λ i, i < N - 1) da ∧ Forall (λ i, i < N - 1) db.
Proof.
  unfold mnist_shared_vision_model.draw_indices, np.random_choice.
  destruct (decide (N - 1 = 0)) as [|Hn]; [done|]. cbn [mbind result_bind].
  intros [= <- <-]. rewrite !length_fmap, !length_seq.
  split_and!; [lia|done|done| |];
    apply Forall_fmap, Forall_forall; intros k _; simpl;
    by apply Nat.mod_upper_bound.
Qed.

Lemma mnist_draw_indices_total N D g :
  2 ≤ N → ∃ da db, mnist_shared_vision_model.draw_indices N D g = Ok (da, db).
Proof.
  intros HN. unfold mnist_shared_vision_model.draw_indices, np.random_choice.
  destruct (decide (N - 1 = 0)) as [|Hn]; [lia|]. eexists _, _. reflexivity.
Qed.

Lemma Forall_lt_weaken (l : list nat) n m :
  n ≤ m → Forall (λ i, i < n) l → Forall (λ i, i < m) l.
Proof. intros Hnm HF. eapply Forall_impl; [exact HF|]. intros i Hi. simpl in *. lia. Qed.

Lemma take_bound (a idx r : list nat) n :
  Forall (λ c, c < n) a → np.take a idx = Ok r → Forall (λ c, c < n) r.
Proof.
  rewrite take_Ok. intros Ha HF. rewrite Forall_forall in Ha.
  induction HF as [|i x idx r Hi HF IH]; constructor; [|done].
  apply Ha. by eapply list_elem_of_lookup_2.
Qed.

(** What the balanced sampler has computed when it reaches the auxiliary
    class vectors (line 63): the labels of the selected pairs. *)
Lemma balanced_sampler_prefix imgs labels D g da db :
  length labels = length imgs →
  mnist_shared_vision_model.draw_indices (length imgs) D g = Ok (da, db) →
  let h := D / 2 in
  let k := h `min` nonmatch_count labels da db + h `min` match_count labels da db in
  ∃ digit_a digit_b labels_a labels_b idx_images data_digit_a data_digit_b cols_a cols_b,
    np.take imgs da = Ok digit_a ∧ np.take imgs db = Ok digit_b ∧
    np.take labels da = Ok labels_a ∧ np.take labels db = Ok labels_b ∧
    mnist_shared_vision_model.balance (np.eq_astype_int labels_a labels_b) h = Ok idx_images ∧
    np.take (np.eq_astype_int labels_a labels_b) idx_images =
      Ok (replicate (h `min` nonmatch_count labels da db) 0 ++
          replicate (h `min` match_count labels da db) 1) ∧
    np.take digit_a idx_images = Ok data_digit_a ∧
    np.take digit_b idx_images = Ok data_digit_b ∧
    np.take labels_a idx_images = Ok cols_a ∧
    np.take labels_b idx_images = Ok cols_b ∧
    length idx_images = k.
Proof.
  intros Hlab Hdraw h k.
  apply mnist_draw_indices_Ok in Hdraw as (HN & Hla & Hlb & Hda & Hdb).
  destruct (take_total imgs da) as [digit_a Ha]; [by eapply Forall_lt_weaken; [|done]; lia|].
  destruct (take_total imgs db) as [digit_b Hb]; [by eapply Forall_lt_weaken; [|done]; lia|].
  destruct (take_total labels da) as [labels_a Hta]; [by eapply Forall_lt_weaken; [|done]; lia|].
  destruct (take_total labels db) as [labels_b Htb]; [by eapply Forall_lt_weaken; [|done]; lia|].
  pose proof (take_length _ _ _ Ha) as Hl1. pose proof (take_length _ _ _ Hb) as Hl2.
  pose proof (take_length _ _ _ Hta) as Hl3. pose proof (take_length _ _ _ Htb) as Hl4.
  destruct (flags_counts _ _ _ _ _ Hta Htb) as [Hc1 Hc0].
  destruct (balance_spec (np.eq_astype_int labels_a labels_b) h (flags_binary _ _))
    as (idx & Hbal & Hidx & Hlen & Htake).
  rewrite Hc1, Hc0 in Hlen, Htake.
  rewrite flags_length in Hidx by lia.
  destruct (take_total digit_a idx) as [dda Hdda]; [by rewrite Hl1, <-Hl3|].
  destruct (take_total digit_b idx) as [ddb Hddb]; [by rewrite Hl2, Hlb, <-Hla, <-Hl3|].
  destruct (take_total labels_a idx) as [ca Hca]; [done|].
  destruct (take_total labels_b idx) as [cb Hcb]; [by rewrite Hl4, Hlb, <-Hla, <-Hl3|].
  exists digit_a, digit_b, labels_a, labels_b, idx, dda, ddb, ca, cb.
  split_and!; done.
Qed.
End sampler_facts.

Section balanced_output.
Context {Img : Type}.
Implicit Types (imgs : list Img) (labels da db : list nat).

(** The fields of a returned set in terms of the intermediate arrays. *)
Lemma balanced_sampler_Ok_inv imgs labels D g da db d :
  length labels = length imgs →
  mnist_shared_vision_model.draw_indices (length imgs) D g = Ok (da, db) →
  mnist_shared_vision_model.get_img_pairs_and_labels imgs labels D g = Ok d →
  ∃ a b la lb idx ca cb,
    np.take imgs da = Ok a ∧ np.take imgs db = Ok b ∧
    np.take labels da = Ok la ∧ np.take labels db = Ok lb ∧
    mnist_shared_vision_model.balance (np.eq_astype_int la lb) (D / 2) = Ok idx ∧
    np.take (np.eq_astype_int la lb) idx = Ok (mnist_shared_vision_model.labels d) ∧
    np.take a idx = Ok (mnist_shared_vision_model.digit_a d) ∧
    np.take b idx = Ok (mnist_shared_vision_model.digit_b d) ∧
    np.take la idx = Ok ca ∧ np.take lb idx = Ok cb ∧
    np.set_at2 (np.zeros (D / 2 * 2) 10) (np.arange (D / 2 * 2)) ca 1
      = Ok (mnist_shared_vision_model.digit_a_labels d) ∧
    np.set_at2 (np.zeros (D / 2 * 2) 10) (np.arange (D / 2 * 2)) cb 1
      = Ok (mnist_shared_vision_model.digit_b_labels d).
Proof.
  intros Hlab Hdraw.
  destruct (balanced_sampler_prefix imgs labels D g da db Hlab Hdraw)
    as (a & b & la & lb & idx & dda & ddb & ca & cb &
        Ha & Hb & Hla & Hlb & Hbal & Hflags & Hdda & Hddb & Hca & Hcb & Hlen).
  unfold mnist_shared_vision_model.get_img_pairs_and_labels.
  step Hdraw. step Ha. step Hb. step Hla. step Hlb. step Hbal. step Hflags.
  step Hdda. step Hddb. step Hca.
  destruct (np.set_at2 _ _ ca 1) as [ra|] eqn:Hra; [|done]. cbn [mbind result_bind].
  step Hcb.
  destruct (np.set_at2 _ _ cb 1) as [rb|] eqn:Hrb; [|done]. cbn [mbind result_bind].
  intros [= <-]. exists a, b, la, lb, idx, ca, cb.
  cbn [mnist_shared_vision_model.labels mnist_shared_vision_model.digit_a
       mnist_shared_vision_model.digit_b mnist_shared_vision_model.digit_a_labels
       mnist_shared_vision_model.digit_b_labels].
  split_and!; done.
Qed.

(** Position [p] of the pool as a pair of images with their labels. *)
Lemma pool_position imgs labels da db a b la lb p x y :
  np.take imgs da = Ok a → np.take imgs db = Ok b →
  np.take labels da = Ok la → np.take labels db = Ok lb →
  la !! p = Some x → lb !! p = Some y →
  ∃ ia ib, a !! p = Some ia ∧ b !! p = Some ib ∧
           drawn_pair imgs labels da db p ia ib x y.
Proof.
  rewrite !take_Ok. intros Ha Hb Hla Hlb Hx Hy.
  destruct (Forall2_lookup_r _ _ _ _ _ Hla Hx) as (i & Hi & Hli).
  destruct (Forall2_lookup_r _ _ _ _ _ Hlb Hy) as (j & Hj & Hlj).
  destruct (Forall2_lookup_l _ _ _ _ _ Ha Hi) as (ia & Hia & Hii).
  destruct (Forall2_lookup_l _ _ _ _ _ Hb Hj) as (ib & Hib & Hij).
  exists ia, ib. split_and!; [done|done|]. by exists i, j.
Qed.
End balanced_output.

Section draw_order.
Implicit Types (a : list nat).

Lemma nonzero_from_sorted i a : StronglySorted lt (np.nonzero_from i a).
Proof.
  revert i. induction a as [|x a IH]; intros i; cbn [np.nonzero_from]; [constructor|].
  destruct (decide (x = 0)); [apply IH|].
  constructor; [apply IH|].
  apply Forall_forall. intros k (y & Hk & _)%nonzero_from_elem. lia.
Qed.

Lemma take_sorted (l : list nat) h : StronglySorted lt l → StronglySorted lt (take h l).
Proof.
  intros Hs. rewrite <-(take_drop h l) in Hs. by apply StronglySorted_app_1_l in Hs.
Qed.

Lemma take_sorted_prefix_closed (l : list nat) h j k :
  StronglySorted lt l → k ∈ take h l → j ∈ l → j < k → j ∈ take h l.
Proof.
  intros Hs Hk Hj Hjk. rewrite <-(take_drop h l) in Hs, Hj.
  apply elem_of_app in Hj as [Hj|Hj]; [done|].
  pose proof (StronglySorted_app_1_elem_of _ _ _ _ _ Hs Hk Hj). lia.
Qed.
Lemma sorted_lt_NoDup (l : list nat) : StronglySorted lt l → NoDup l.
Proof.
  induction 1 as [|x l Hs IH Hx]; constructor; [|done].
  intros Hin. rewrite Forall_forall in Hx. specialize (Hx x Hin). lia.
Qed.

(** The index set of lines 51-57 names every position of the pool at most
    once. *)
Lemma balance_NoDup flags h idx :
  mnist_shared_vision_model.balance flags h = Ok idx → NoDup idx.
Proof.
  unfold mnist_shared_vision_model.balance. rewrite mask_of_nonzero.
  cbn [mbind result_bind]. intros [= <-]. apply NoDup_app. split_and!.
  - apply sorted_lt_NoDup, take_sorted, nonzero_from_sorted.
  - intros k Hk%subseteq_take Hk'%subseteq_take.
    apply nonzero_negate_elem in Hk. apply nonzero_elem in Hk' as (x & Hx & Hnz).
    congruence.
  - apply sorted_lt_NoDup, take_sorted, nonzero_from_sorted.
Qed.
End draw_order.

Import mnist_shared_vision_model.

(** ** The balanced sampler

    Claim C1.  In every run of the balanced sampler whose oversampled pool
    (the [desired_size * 10] index pairs drawn at lines 40-41) holds at
    least [D / 2] pairs that match and at least [D / 2] pairs that do not,
    the sampler returns [2 * (D / 2)] pairs taken at pairwise distinct
    positions [idx_images] of the pool: the images at position [k] of
    [digit_a] and [digit_b] are those of the two indices drawn at pool
    position [idx_images[k]], the flag at position [k] is one if their
    class labels are equal and zero if they differ, the first [D / 2]
    returned pairs have different labels and the last [D / 2] equal ones.
    So the returned labels are [D / 2] zeros followed by [D / 2] ones:
    exactly [D / 2] pairs with [match = false], placed first, then exactly
    [D / 2] pairs with [match = true].  The dataset is a well-formed MNIST
    one: one label per image, every label a digit.  ([D / 2] is the
    source's [int(desired_size/2)], so the statement covers the even sizes
    of the claim.) *)
Theorem balanced_sampler_half_half {Img} (imgs : list Img) (labels da db : list nat) D g :
  length labels = length imgs →
  Forall (λ c, c < 10) labels →
  draw_indices (length imgs) D g = Ok (da, db) →
  D / 2 ≤ match_count labels da db →
  D / 2 ≤ nonmatch_count labels da db →
  ∃ d idx_images,
    get_img_pairs_and_labels imgs labels D g = Ok d ∧
    mnist_shared_vision_model.labels d = replicate (D / 2) 0 ++ replicate (D / 2) 1 ∧
    length (digit_a d) = D / 2 * 2 ∧
    length (digit_b d) = D / 2 * 2 ∧
    length idx_images = D / 2 * 2 ∧
    NoDup idx_images ∧
    ∀ k p, idx_images !! k = Some p →
      ∃ ia ib la lb,
        drawn_pair imgs labels da db p ia ib la lb ∧
        digit_a d !! k = Some ia ∧ digit_b d !! k = Some ib ∧
        mnist_shared_vision_model.labels d !! k
          = Some (if decide (la = lb) then 1 else 0) ∧
        (k < D / 2 → la ≠ lb) ∧ (D / 2 ≤ k → la = lb).
Proof.
  intros Hlab Hcls Hdraw Hm Hn.
  destruct (balanced_sampler_prefix imgs labels D g da db Hlab Hdraw)
    as (a & b & la & lb & idx & dda & ddb & ca & cb &
        Ha & Hb & Hla & Hlb & Hbal & Hflags & Hdda & Hddb & Hca & Hcb & Hlen).
  rewrite !Nat.min_l in Hflags, Hlen by done.
  destruct (set_at2_one_hot (D / 2 * 2) ca) as [ra Hra].
  { rewrite (take_length _ _ _ Hca). lia. }
  { eapply take_bound; [|done]. by eapply take_bound. }
  destruct (set_at2_one_hot (D / 2 * 2) cb) as [rb Hrb].
  { rewrite (take_length _ _ _ Hcb). lia. }
  { eapply take_bound; [|done]. by eapply take_bound. }
  unfold get_img_pairs_and_labels.
  step Hdraw. step Ha. step Hb. step Hla. step Hlb. step Hbal. step Hflags.
  step Hdda. step Hddb. step Hca. step Hra. step Hcb. step Hrb.
  eexists. exists idx. split; [done|].
  cbn [mnist_shared_vision_model.labels digit_a digit_b].
  rewrite (take_length _ _ _ Hdda), (take_length _ _ _ Hddb).
  split_and!; [done|lia|lia|lia|by eapply balance_NoDup|].
  intros k p Hk.
  pose proof (lookup_lt_Some _ _ _ Hk) as Hlt. rewrite Hlen in Hlt.
  pose proof (take_lookup _ _ _ _ _ Hflags Hk) as Hv.
  assert (∃ v, (replicate (D / 2) 0 ++ replicate (D / 2) 1) !! k = Some v
               ∧ (k < D / 2 → v = 0) ∧ (D / 2 ≤ k → v = 1)) as (v & Hvk & Hv0 & Hv1).
  { destruct (decide (k < D / 2)) as [Hkh|Hkh].
    - exists 0. rewrite lookup_app_l by (rewrite length_replicate; lia).
      rewrite lookup_replicate_2 by lia. split_and!; [done|done|lia].
    - exists 1. rewrite lookup_app_r by (rewrite length_replicate; lia).
      rewrite length_replicate, lookup_replicate_2 by lia. split_and!; [done|lia|done]. }
  rewrite Hvk in Hv. symmetry in Hv. unfold np.eq_astype_int in Hv.
  apply lookup_zip_with_Some in Hv as (x & y & Hxy & Hx & Hy).
  destruct (pool_position _ _ _ _ _ _ _ _ _ _ _ Ha Hb Hla Hlb Hx Hy)
    as (ia & ib & Hia & Hib & Hpair).
  exists ia, ib, x, y. split_and!.
  - done.
  - by rewrite (take_lookup _ _ _ _ _ Hdda Hk).
  - by rewrite (take_lookup _ _ _ _ _ Hddb Hk).
  - by rewrite Hvk, Hxy.
  - intros Hkh. specialize (Hv0 Hkh). destruct (decide (x = y)); [congruence|done].
  - intros Hkh. specialize (Hv1 Hkh). destruct (decide (x = y)); [done|congruence].
Qed.

Lemma balanced_sampler_half_half_witness :
  ∃ d, get_img_pairs_and_labels [10; 11; 12] [0; 1; 2] 4 (λ k, k / 7) = Ok d ∧
       mnist_shared_vision_model.labels d = [0; 0; 1; 1] ∧
       digit_a d = [10; 10; 10; 10] ∧ digit_b d = [11; 11; 10; 10].
Proof.
  destruct (balanced_sampler_half_half [10; 11; 12] [0; 1; 2]
              ((λ k, (k / 7) `mod` 2) <$> seq 0 40)
              ((λ k, ((40 + k) / 7) `mod` 2) <$> seq 0 40) 4 (λ k, k / 7))
    as (d & idx & Hget & Hlabels & _).
  - reflexivity.
  - repeat constructor.
  - reflexivity.
  - vm_compute. lia.
  - vm_compute. lia.
  - exists d. split; [exact Hget|]. split; [exact Hlabels|].
    pose proof Hget as Hget'. vm_compute in Hget'. injection Hget' as <-.
    split; reflexivity.
Defined.

(** Claim C2.  What the code does when a partition is short: for a desired
    size of at least four, whenever the pool holds fewer than [D / 2]
    matching pairs or fewer than [D / 2] pairs that do not match, the index
    set is shorter than [2 * (D / 2)] and longer than one, so that the
    assignment to [digit_a_labels] at line 65 cannot broadcast
    [np.arange(half_desired_size*2)] against it: the sampler raises
    [IndexError] instead of returning a smaller set. *)
Theorem balanced_sampler_short_partition_raises {Img} (imgs : list Img)
    (labels da db : list nat) D g :
  length labels = length imgs →
  draw_indices (length imgs) D g = Ok (da, db) →
  4 ≤ D →
  match_count labels da db < D / 2 ∨ nonmatch_count labels da db < D / 2 →
  get_img_pairs_and_labels imgs labels D g = Raise IndexError.
Proof.
  intros Hlab Hdraw HD Hshort.
  destruct (balanced_sampler_prefix imgs labels D g da db Hlab Hdraw)
    as (a & b & la & lb & idx & dda & ddb & ca & cb &
        Ha & Hb & Hla & Hlb & Hbal & Hflags & Hdda & Hddb & Hca & Hcb & Hlen).
  apply mnist_draw_indices_Ok in Hdraw as Hd. destruct Hd as (_ & Hlda & Hldb & _ & _).
  pose proof (counts_total labels da db) as Htot.
  rewrite length_zip, Hlda, Hldb, Nat.min_id in Htot.
  pose proof (Nat.Div0.div_le_upper_bound D 2 D) as Hhalf.
  assert (2 ≤ D / 2) as Hh by (apply Nat.div_le_lower_bound; lia).
  assert (D / 2 ≤ D) as HhD by (apply Nat.Div0.div_le_upper_bound; lia).
  unfold get_img_pairs_and_labels.
  step Hdraw. step Ha. step Hb. step Hla. step Hlb. step Hbal. step Hflags.
  step Hdda. step Hddb. step Hca.
  rewrite set_at2_shape_mismatch; [done| | |].
  - unfold np.arange. rewrite length_seq, (take_length _ _ _ Hca). lia.
  - unfold np.arange. rewrite length_seq. lia.
  - rewrite (take_length _ _ _ Hca). lia.
Qed.

Lemma balanced_sampler_short_partition_witness :
  get_img_pairs_and_labels [10; 11; 12] [0; 1; 2] 4 (λ k, if decide (k = 3) then 1 else 0)
  = Raise IndexError.
Proof.
  apply (balanced_sampler_short_partition_raises [10; 11; 12] [0; 1; 2]
           ((λ k, (if decide (k = 3) then 1 else 0) `mod` 2) <$> seq 0 40)
           ((λ k, (if decide (40 + k = 3) then 1 else 0) `mod` 2) <$> seq 0 40)).
  - reflexivity.
  - reflexivity.
  - lia.
  - right. vm_compute. lia.
Defined.

(** With a desired size of two the single index of a pool without any
    pair that does not match broadcasts, and one pair is returned. *)
Example balanced_sampler_one_pair :
  ∃ d, get_img_pairs_and_labels [10; 11; 12] [0; 1; 2] 2 (λ k, 0) = Ok d ∧
       mnist_shared_vision_model.labels d = [1] ∧ digit_a d = [10] ∧ digit_b d = [10].
Proof. eexists. split; [vm_compute; reflexivity|]. done. Qed.

Lemma Forall_lt_not_elem (l : list nat) n : Forall (λ i, i < n) l → n ∉ l.
Proof. rewrite Forall_forall. intros Hl Hin. specialize (Hl n Hin). simpl in Hl. lia. Qed.

(** ** The range of the drawn indices

    Claim C3.  In both samplers the index arrays come from
    [np.random.choice(num_img-1, ...)]: whatever the state of the
    generator, neither array ever holds the last index [N - 1], and with
    fewer than two images the call raises [ValueError]. *)
Theorem draws_never_reach_last_index N D g :
  (match keras_shared_vision_model.draw_indices N g with
   | Ok (da, db) => ((N - 1) ∉ da) ∧ ((N - 1) ∉ db)
   | Raise e => e = ValueError ∧ N ≤ 1
   end) ∧
  (match mnist_shared_vision_model.draw_indices N D g with
   | Ok (da, db) => ((N - 1) ∉ da) ∧ ((N - 1) ∉ db)
   | Raise e => e = ValueError ∧ N ≤ 1
   end).
Proof.
  split.
  - destruct (keras_shared_vision_model.draw_indices N g) as [[da db]|e] eqn:Hd.
    + apply keras_draw_indices_Ok in Hd as (_ & _ & _ & Ha & Hb).
      split; by apply Forall_lt_not_elem.
    + destruct (decide (2 ≤ N)) as [HN|HN].
      * destruct (keras_draw_indices_total N g HN) as (? & ? & ?). congruence.
      * revert Hd. unfold keras_shared_vision_model.draw_indices, np.random_choice.
        destruct (decide (N - 1 = 0)) as [Hz|Hz]; [|lia]. simpl.
        intros [= <-]. split; [done|lia].
  - destruct (mnist_shared_vision_model.draw_indices N D g) as [[da db]|e] eqn:Hd.
    + apply mnist_draw_indices_Ok in Hd as (_ & _ & _ & Ha & Hb).
      split; by apply Forall_lt_not_elem.
    + destruct (decide (2 ≤ N)) as [HN|HN].
      * destruct (mnist_draw_indices_total N D g HN) as (? & ? & ?). congruence.
      * revert Hd. unfold mnist_shared_vision_model.draw_indices, np.random_choice.
        destruct (decide (N - 1 = 0)) as [Hz|Hz]; [|lia]. simpl.
        intros [= <-]. split; [done|lia].
Qed.

Lemma fmap_const_seq {A} (x : A) start n : (λ _, x) <$> seq start n = replicate n x.
Proof. revert start. induction n as [|n IH]; intros start; simpl; [done|]. by rewrite IH. Qed.

(** Every index below [N - 1] is drawn by some state of the generator. *)
Lemma draws_reach_every_other_index N i :
  i < N - 1 →
  keras_shared_vision_model.draw_indices N (λ _, i) = Ok (replicate N i, replicate N i).
Proof.
  intros Hi. unfold keras_shared_vision_model.draw_indices, np.random_choice, np.advance.
  destruct (decide (N - 1 = 0)) as [|_]; [lia|]. cbn [mbind result_bind].
  rewrite Nat.mod_small by done. by rewrite fmap_const_seq.
Qed.

Example three_images_last_never_drawn g :
  ∃ da db, keras_shared_vision_model.draw_indices 3 g = Ok (da, db) ∧ (2 ∉ da) ∧ (2 ∉ db).
Proof.
  destruct (keras_draw_indices_total 3 g) as (da & db & Hd); [lia|].
  exists da, db. split; [done|].
  apply keras_draw_indices_Ok in Hd as (_ & _ & _ & Ha & Hb).
  split; by apply Forall_lt_not_elem.
Qed.

(** ** The non-balanced sampler

    Claim C7, as the code has it.  The sampler takes no desired size: on a
    dataset of [N >= 2] images with one label per image it returns exactly
    [N] pairs, and the flag of every pair is one if the labels of its two
    images are equal and zero if they differ. *)
Theorem unbalanced_sampler_pairs {Img} (imgs : list Img) (labels : list nat) g :
  2 ≤ length imgs →
  length labels = length imgs →
  ∃ da db d,
    keras_shared_vision_model.draw_indices (length imgs) g = Ok (da, db) ∧
    keras_shared_vision_model.get_img_pairs_and_labels imgs labels g = Ok d ∧
    length (keras_shared_vision_model.digit_a d) = length imgs ∧
    length (keras_shared_vision_model.digit_b d) = length imgs ∧
    length (keras_shared_vision_model.labels d) = length imgs ∧
    ∀ k, k < length imgs →
      ∃ i j ia ib la lb flag,
        da !! k = Some i ∧ db !! k = Some j ∧
        imgs !! i = Some ia ∧ imgs !! j = Some ib ∧
        labels !! i = Some la ∧ labels !! j = Some lb ∧
        keras_shared_vision_model.digit_a d !! k = Some ia ∧
        keras_shared_vision_model.digit_b d !! k = Some ib ∧
        keras_shared_vision_model.labels d !! k = Some flag ∧
        (flag = 1 ↔ la = lb) ∧ (flag = 0 ↔ la ≠ lb).
Proof.
  intros HN Hlab.
  destruct (keras_draw_indices_total (length imgs) g HN) as (da & db & Hdraw).
  apply keras_draw_indices_Ok in Hdraw as Hd.
  destruct Hd as (_ & Hlda & Hldb & Hda & Hdb).
  destruct (take_total imgs da) as [a Ha]; [by eapply Forall_lt_weaken; [|done]; lia|].
  destruct (take_total imgs db) as [b Hb]; [by eapply Forall_lt_weaken; [|done]; lia|].
  destruct (take_total labels da) as [la Hla]; [by eapply Forall_lt_weaken; [|done]; lia|].
  destruct (take_total labels db) as [lb Hlb]; [by eapply Forall_lt_weaken; [|done]; lia|].
  exists da, db, (keras_shared_vision_model.Data a b (np.eq_astype_int la lb)).
  pose proof (take_length _ _ _ Ha) as Hl1. pose proof (take_length _ _ _ Hb) as Hl2.
  pose proof (take_length _ _ _ Hla) as Hl3. pose proof (take_length _ _ _ Hlb) as Hl4.
  split; [done|]. split.
  { unfold keras_shared_vision_model.get_img_pairs_and_labels.
    step Hdraw. step Ha. step Hb. step Hla. by step Hlb. }
  cbn [keras_shared_vision_model.digit_a keras_shared_vision_model.digit_b
       keras_shared_vision_model.labels].
  split_and!; [lia|lia|rewrite flags_length; lia|].
  intros k Hk.
  destruct (lookup_lt_is_Some_2 da k) as [i Hi]; [lia|].
  destruct (lookup_lt_is_Some_2 db k) as [j Hj]; [lia|].
  destruct (lookup_lt_is_Some_2 a k) as [ia Hia]; [lia|].
  destruct (lookup_lt_is_Some_2 b k) as [ib Hib]; [lia|].
  destruct (lookup_lt_is_Some_2 la k) as [x Hx]; [lia|].
  destruct (lookup_lt_is_Some_2 lb k) as [y Hy]; [lia|].
  exists i, j, ia, ib, x, y, (if decide (x = y) then 1 else 0).
  rewrite <-(take_lookup _ _ _ _ _ Ha Hi), <-(take_lookup _ _ _ _ _ Hb Hj).
  rewrite <-(take_lookup _ _ _ _ _ Hla Hi), <-(take_lookup _ _ _ _ _ Hlb Hj).
  split_and!; try done.
  - by apply flags_lookup.
  - destruct (decide (x = y)); split; done.
  - destruct (decide (x = y)); split; done.
Qed.

Lemma unbalanced_sampler_pairs_witness :
  ∃ d, keras_shared_vision_model.get_img_pairs_and_labels [10; 11; 12] [0; 1; 0] (λ k, k / 2) = Ok d ∧
       keras_shared_vision_model.digit_a d = [10; 10; 11] ∧
       keras_shared_vision_model.digit_b d = [11; 10; 10] ∧
       keras_shared_vision_model.labels d = [0; 1; 0].
Proof.
  destruct (unbalanced_sampler_pairs [10; 11; 12] [0; 1; 0] (λ k, k / 2))
    as (da & db & d & Hdraw & Hget & _); [simpl; lia|reflexivity|].
  exists d. split; [exact Hget|].
  vm_compute in Hget. injection Hget as <-. done.
Defined.

(** Claim C7 as stated fails: the sampler has no parameter for a desired
    size, so three images give three pairs where five are wanted; and a
    single image gives no pair at all. *)
Lemma unbalanced_sampler_size_counterexample :
  let D := 5 in
  (∃ d, keras_shared_vision_model.get_img_pairs_and_labels
          [10; 11; 12] [0; 1; 0] (λ k, k / 2) = Ok d ∧
        length (keras_shared_vision_model.labels d) = 3 ∧
        length (keras_shared_vision_model.labels d) ≠ D) ∧
  (∀ g, keras_shared_vision_model.get_img_pairs_and_labels [10] [3] g = Raise ValueError).
Proof.
  split; [|reflexivity].
  eexists. split; [vm_compute; reflexivity|]. split; [reflexivity|]. simpl. lia.
Qed.

Example unbalanced_sampler_single_image g :
  keras_shared_vision_model.get_img_pairs_and_labels [10] [3] g = Raise ValueError.
Proof. reflexivity. Qed.

(** * Further properties of the pair samplers *)

Section class_vectors.
Implicit Types (cols : list nat).

Lemma one_hot_rows_fold (pre : list (list nat)) cols (z : list nat) :
  foldl (λ acc (p : nat * nat), alter (λ row, <[p.2:=1]> row) p.1 acc)
    (pre ++ replicate (length cols) z) (zip (seq (length pre) (length cols)) cols)
  = pre ++ ((λ c, <[c:=1]> z) <$> cols).
Proof.
  revert pre. induction cols as [|c cols IH]; intros pre; [done|].
  cbn [length seq zip zip_with foldl replicate fmap list_fmap fst snd].
  rewrite alter_app_r_alt by done. rewrite Nat.sub_diag. cbn [alter list_alter].
  replace (pre ++ <[c:=1]> z :: replicate (length cols) z)
    with ((pre ++ [<[c:=1]> z]) ++ replicate (length cols) z) by (by rewrite <-app_assoc).
  replace (S (length pre)) with (length (pre ++ [<[c:=1]> z]))
    by (rewrite length_app; simpl; lia).
  rewrite IH. by rewrite <-app_assoc.
Qed.

Lemma set_at2_one_hot_rows n cols :
  length cols = n → Forall (λ c, c < 10) cols →
  np.set_at2 (np.zeros n 10) (np.arange n) cols 1
  = Ok ((λ c, <[c:=1]> (replicate 10 0)) <$> cols).
Proof.
  intros Hlen Hcols.
  destruct (set_at2_one_hot n cols Hlen Hcols) as [r Hr]. rewrite Hr. f_equal.
  revert Hr. unfold np.set_at2, np.broadcast_indices, np.arange.
  rewrite decide_True by (by rewrite length_seq).
  cbn [mbind result_bind]. destruct (forallb _ _); [|done]. intros [= <-].
  subst n. unfold np.zeros. apply (one_hot_rows_fold [] cols).
Qed.

Lemma set_at2_broadcast_column c :
  c < 10 →
  np.set_at2 (np.zeros 2 10) (np.arange 2) [c] 1
  = Ok [<[c:=1]> (replicate 10 0); <[c:=1]> (replicate 10 0)].
Proof.
  intros Hc. unfold np.set_at2, np.broadcast_indices, np.arange.
  cbn [seq length]. rewrite decide_False by done.
  cbn [mbind result_bind fmap list_fmap forallb np.in_bounds2 np.zeros replicate
       lookup list_lookup fst snd length].
  rewrite bool_decide_eq_true_2 by done. reflexivity.
Qed.
End class_vectors.

(** Property X1.  Whenever the balanced sampler returns, the two image
    arrays have as many entries as there are flags, and every returned flag
    belongs to a pair that was drawn: the images at its position are those
    of the two drawn indices, and the flag is one if their labels are equal
    and zero if they differ. *)
Theorem balanced_sampler_pairs_consistent {Img} (imgs : list Img)
    (labels da db : list nat) D g d :
  length labels = length imgs →
  draw_indices (length imgs) D g = Ok (da, db) →
  get_img_pairs_and_labels imgs labels D g = Ok d →
  length (digit_a d) = length (mnist_shared_vision_model.labels d) ∧
  length (digit_b d) = length (mnist_shared_vision_model.labels d) ∧
  ∀ k flag, mnist_shared_vision_model.labels d !! k = Some flag →
    ∃ p ia ib la lb,
      drawn_pair imgs labels da db p ia ib la lb ∧
      digit_a d !! k = Some ia ∧ digit_b d !! k = Some ib ∧
      flag = (if decide (la = lb) then 1 else 0).
Proof.
  intros Hlab Hdraw Hget.
  destruct (balanced_sampler_Ok_inv _ _ _ _ _ _ _ Hlab Hdraw Hget)
    as (a & b & la & lb & idx & ca & cb & Ha & Hb & Hla & Hlb & _ & Hfl & Hda & Hdb & _).
  pose proof (take_length _ _ _ Hfl) as Hl0. pose proof (take_length _ _ _ Hda) as Hl1.
  pose proof (take_length _ _ _ Hdb) as Hl2.
  split_and!; [lia|lia|].
  intros k flag Hk.
  apply take_Ok in Hfl as Hfl'.
  destruct (Forall2_lookup_r _ _ _ _ _ Hfl' Hk) as (p & Hp & Hflag).
  unfold np.eq_astype_int in Hflag.
  apply lookup_zip_with_Some in Hflag as (x & y & -> & Hx & Hy).
  destruct (pool_position _ _ _ _ _ _ _ _ _ _ _ Ha Hb Hla Hlb Hx Hy)
    as (ia & ib & Hia & Hib & Hpair).
  exists p, ia, ib, x, y. split_and!; [done| | |done].
  - by rewrite (take_lookup _ _ _ _ _ Hda Hp).
  - by rewrite (take_lookup _ _ _ _ _ Hdb Hp).
Qed.

Lemma balanced_sampler_pairs_consistent_witness :
  ∃ d, get_img_pairs_and_labels [10; 11; 12] [0; 1; 2] 4 (λ k, k / 7) = Ok d ∧
       length (digit_a d) = length (mnist_shared_vision_model.labels d).
Proof.
  eexists. split; [vm_compute; reflexivity|].
  refine (proj1 (balanced_sampler_pairs_consistent [10; 11; 12] [0; 1; 2]
            ((λ k, (k / 7) `mod` 2) <$> seq 0 40)
            ((λ k, ((40 + k) / 7) `mod` 2) <$> seq 0 40) 4 (λ k, k / 7) _ _ _ _)).
  - reflexivity.
  - reflexivity.
  - vm_compute. reflexivity.
Defined.

(** Property X2.  With a pool that holds enough pairs of both kinds
    and labels below ten, the class vectors [digit_a_labels] and
    [digit_b_labels] have one row per returned pair, and the row at a
    position is the one-hot vector of the label of the image returned at
    that position. *)
Theorem balanced_sampler_class_vectors {Img} (imgs : list Img)
    (labels da db : list nat) D g d :
  length labels = length imgs →
  Forall (λ c, c < 10) labels →
  draw_indices (length imgs) D g = Ok (da, db) →
  D / 2 ≤ match_count labels da db →
  D / 2 ≤ nonmatch_count labels da db →
  get_img_pairs_and_labels imgs labels D g = Ok d →
  length (digit_a_labels d) = D / 2 * 2 ∧
  length (digit_b_labels d) = D / 2 * 2 ∧
  ∀ k, k < D / 2 * 2 →
    ∃ p ia ib la lb,
      drawn_pair imgs labels da db p ia ib la lb ∧
      digit_a d !! k = Some ia ∧ digit_b d !! k = Some ib ∧
      digit_a_labels d !! k = Some (<[la:=1]> (replicate 10 0)) ∧
      digit_b_labels d !! k = Some (<[lb:=1]> (replicate 10 0)).
Proof.
  intros Hlab Hcls Hdraw Hm Hn Hget.
  destruct (balanced_sampler_Ok_inv _ _ _ _ _ _ _ Hlab Hdraw Hget)
    as (a & b & la & lb & idx & ca & cb & Ha & Hb & Hla & Hlb & Hbal & Hfl & Hda & Hdb &
        Hca & Hcb & Hra & Hrb).
  destruct (balanced_sampler_prefix imgs labels D g da db Hlab Hdraw)
    as (a' & b' & la' & lb' & idx' & _ & _ & _ & _ &
        Ha' & Hb' & Hla' & Hlb' & Hbal' & _ & _ & _ & _ & _ & Hlen).
  assert (la' = la) as -> by congruence. assert (lb' = lb) as -> by congruence.
  assert (idx' = idx) as -> by congruence.
  rewrite !Nat.min_l in Hlen by done.
  assert (length ca = D / 2 * 2) as Hlca by (rewrite (take_length _ _ _ Hca); lia).
  assert (length cb = D / 2 * 2) as Hlcb by (rewrite (take_length _ _ _ Hcb); lia).
  rewrite set_at2_one_hot_rows in Hra, Hrb;
    [|done|by eapply take_bound; [|done]; eapply take_bound
     |done|by eapply take_bound; [|done]; eapply take_bound].
  injection Hra as <-. injection Hrb as <-.
  rewrite !length_fmap. split_and!; [done|done|].
  intros k Hk.
  destruct (lookup_lt_is_Some_2 idx k) as [p Hp]; [lia|].
  destruct (lookup_lt_is_Some_2 ca k) as [x Hx]; [lia|].
  destruct (lookup_lt_is_Some_2 cb k) as [y Hy]; [lia|].
  pose proof (take_lookup _ _ _ _ _ Hca Hp) as Hxp. rewrite Hx in Hxp.
  pose proof (take_lookup _ _ _ _ _ Hcb Hp) as Hyp. rewrite Hy in Hyp.
  destruct (pool_position _ _ _ _ _ _ _ _ p x y Ha Hb Hla Hlb)
    as (ia & ib & Hia & Hib & Hpair); [done|done|].
  exists p, ia, ib, x, y. split_and!; [done| | | |].
  - by rewrite (take_lookup _ _ _ _ _ Hda Hp).
  - by rewrite (take_lookup _ _ _ _ _ Hdb Hp).
  - by rewrite list_lookup_fmap, Hx.
  - by rewrite list_lookup_fmap, Hy.
Qed.

Lemma balanced_sampler_class_vectors_witness :
  ∃ d, get_img_pairs_and_labels [10; 11; 12] [0; 1; 2] 4 (λ k, k / 7) = Ok d ∧
       length (digit_a_labels d) = 4 ∧ length (digit_b_labels d) = 4.
Proof.
  eexists. split; [vm_compute; reflexivity|].
  pose proof (balanced_sampler_class_vectors [10; 11; 12] [0; 1; 2]
            ((λ k, (k / 7) `mod` 2) <$> seq 0 40)
            ((λ k, ((40 + k) / 7) `mod` 2) <$> seq 0 40) 4 (λ k, k / 7)) as Hcv.
  edestruct Hcv as (H1 & H2 & _).
  - reflexivity.
  - repeat constructor.
  - reflexivity.
  - vm_compute. lia.
  - vm_compute. lia.
  - vm_compute. reflexivity.
  - split; [exact H1|exact H2].
Defined.

(** Property X3.  The balancing step (lines 51-57) never fails: it
    returns the positions of the pairs that do not match followed by those
    of the pairs that match, at most [h] of each; both parts are in
    increasing order and are the earliest such positions of the pool. *)
Theorem balance_keeps_draw_order (flags : list nat) (h : nat) :
  ∃ idx_true idx_false,
    balance flags h = Ok (idx_true ++ idx_false) ∧
    length idx_true = h `min` length (filter (λ x, x = 0) flags) ∧
    length idx_false = h `min` length (filter (λ x, x ≠ 0) flags) ∧
    StronglySorted lt idx_true ∧ StronglySorted lt idx_false ∧
    (∀ k, k ∈ idx_true → flags !! k = Some 0) ∧
    (∀ k, k ∈ idx_false → ∃ x, flags !! k = Some x ∧ x ≠ 0) ∧
    (∀ j k, k ∈ idx_true → j < k → flags !! j = Some 0 → j ∈ idx_true) ∧
    (∀ j k x, k ∈ idx_false → j < k → flags !! j = Some x → x ≠ 0 → j ∈ idx_false).
Proof.
  unfold balance. rewrite mask_of_nonzero. cbn [mbind result_bind].
  eexists _, _. split; [reflexivity|].
  split_and!.
  - by rewrite length_take, nonzero_negate_length.
  - by rewrite length_take, nonzero_length.
  - apply take_sorted, nonzero_from_sorted.
  - apply take_sorted, nonzero_from_sorted.
  - intros k Hk%subseteq_take. by apply nonzero_negate_elem.
  - intros k Hk%subseteq_take. by apply nonzero_elem.
  - intros j k Hk Hjk Hj. eapply take_sorted_prefix_closed; [apply nonzero_from_sorted|done| |done].
    by apply nonzero_negate_elem.
  - intros j k x Hk Hjk Hj Hx. eapply take_sorted_prefix_closed; [apply nonzero_from_sorted|done| |done].
    apply nonzero_elem. eauto.
Qed.

(** Property X4.  With a desired size of two or three and a pool whose
    pairs all match or all differ, the balanced sampler returns a single
    pair and a single flag, but class vectors of two rows: the single label
    broadcasts over both rows. *)
Theorem balanced_sampler_single_pair {Img} (imgs : list Img)
    (labels da db : list nat) D g :
  length labels = length imgs →
  Forall (λ c, c < 10) labels →
  draw_indices (length imgs) D g = Ok (da, db) →
  2 ≤ D ≤ 3 →
  match_count labels da db = 0 ∨ nonmatch_count labels da db = 0 →
  ∃ d, get_img_pairs_and_labels imgs labels D g = Ok d ∧
       length (mnist_shared_vision_model.labels d) = 1 ∧
       length (digit_a d) = 1 ∧ length (digit_b d) = 1 ∧
       (∃ row, digit_a_labels d = [row; row]) ∧
       (∃ row, digit_b_labels d = [row; row]).
Proof.
  intros Hlab Hcls Hdraw HD Hshort.
  destruct (balanced_sampler_prefix imgs labels D g da db Hlab Hdraw)
    as (a & b & la & lb & idx & dda & ddb & ca & cb &
        Ha & Hb & Hla & Hlb & Hbal & Hflags & Hdda & Hddb & Hca & Hcb & Hlen).
  apply mnist_draw_indices_Ok in Hdraw as Hd. destruct Hd as (_ & Hlda & Hldb & _ & _).
  pose proof (counts_total labels da db) as Htot.
  rewrite length_zip, Hlda, Hldb, Nat.min_id in Htot.
  assert (D / 2 = 1) as Hh.
  { destruct HD as [H2 H3]. destruct D as [|[|[|[|D]]]]; try lia; reflexivity. }
  rewrite Hh in *.
  assert (length idx = 1) as Hidx by lia.
  assert (Forall (λ c, c < 10) ca) as Hbca.
  { eapply (take_bound la idx ca); [|exact Hca].
    eapply (take_bound labels da la); [exact Hcls|exact Hla]. }
  assert (Forall (λ c, c < 10) cb) as Hbcb.
  { eapply (take_bound lb idx cb); [|exact Hcb].
    eapply (take_bound labels db lb); [exact Hcls|exact Hlb]. }
  pose proof (take_length _ _ _ Hca) as Hlca. pose proof (take_length _ _ _ Hcb) as Hlcb.
  destruct ca as [|x [|? ?]]; simpl in Hlca; try lia.
  destruct cb as [|y [|? ?]]; simpl in Hlcb; try lia.
  rewrite Forall_singleton in Hbca, Hbcb.
  unfold get_img_pairs_and_labels. rewrite Hh.
  step Hdraw. step Ha. step Hb. step Hla. step Hlb. step Hbal. step Hflags.
  step Hdda. step Hddb. step Hca.
  change (1 * 2) with 2.
  rewrite (set_at2_broadcast_column x) by exact Hbca. cbn [mbind result_bind].
  step Hcb.
  rewrite (set_at2_broadcast_column y) by exact Hbcb. cbn [mbind result_bind].
  eexists. split; [reflexivity|].
  cbn [mnist_shared_vision_model.labels digit_a digit_b digit_a_labels digit_b_labels].
  rewrite (take_length _ _ _ Hdda), (take_length _ _ _ Hddb).
  split_and!; [|done|done|eauto|eauto].
  rewrite length_app, !length_replicate. lia.
Qed.

Lemma balanced_sampler_single_pair_witness :
  ∃ d, get_img_pairs_and_labels [10; 11; 12] [0; 1; 2] 2 (λ k, 0) = Ok d ∧
       length (mnist_shared_vision_model.labels d) = 1 ∧
       length (digit_a_labels d) = 2.
Proof.
  destruct (balanced_sampler_single_pair [10; 11; 12] [0; 1; 2]
              ((λ _, 0) <$> seq 0 20) ((λ _, 0) <$> seq 0 20) 2 (λ k, 0))
    as (d & Hget & Hl & _ & _ & (row & Hrow) & _).
  - reflexivity.
  - repeat constructor.
  - reflexivity.
  - lia.
  - right. vm_compute. reflexivity.
  - exists d. split_and!; [exact Hget|exact Hl|]. by rewrite Hrow.
Defined.

(** * Properties of the text generator *)

Import nietzsche_lstm_text_generation.

Section dict_facts.
Context `{Countable K} {V : Type}.
Implicit Types (items : list (K * V)).

Lemma dict_snoc items k v : dict (items ++ [(k, v)]) = <[k:=v]> (dict items).
Proof. unfold dict. by rewrite foldl_app. Qed.

Lemma dict_lookup_None items k : k ∉ items.*1 → dict items !! k = None.
Proof.
  induction items as [|[k' v'] items IH] using rev_ind; [done|].
  rewrite fmap_app, not_elem_of_app, dict_snoc. simpl.
  intros [Hk Hk']. rewrite lookup_insert_ne; [by apply IH|].
  intros ->. apply Hk'. by left.
Qed.

Lemma dict_lookup items k v :
  NoDup items.*1 → dict items !! k = Some v ↔ (k, v) ∈ items.
Proof.
  induction items as [|[k' v'] items IH] using rev_ind; intros Hnd.
  - split; [done|by intros ?%elem_of_nil].
  - rewrite fmap_app in Hnd. apply NoDup_app in Hnd as (Hnd & Hdisj & _).
    rewrite dict_snoc, elem_of_app, list_elem_of_singleton.
    destruct (decide (k' = k)) as [->|Hne].
    + rewrite lookup_insert_eq. split.
      * intros [= ->]. by right.
      * intros [Hin|[= ->]]; [|done].
        exfalso. apply (Hdisj k); [|by left].
        apply list_elem_of_fmap. by exists (k, v).
    + rewrite lookup_insert_ne by done. rewrite IH by done.
      split; [by left|]. intros [?|[= -> ->]]; done.
Qed.
End dict_facts.

Section vocabulary.
Implicit Types (text : str) (self : TextGeneration).

Lemma enumerate_elem {A} (l : list A) i x : (i, x) ∈ enumerate l ↔ l !! i = Some x.
Proof.
  unfold enumerate. rewrite elem_of_lookup_imap. split.
  - by intros (j & y & [= -> ->] & Hj).
  - intros Hi. by exists i, x.
Qed.

Lemma enumerate_keys {A} (l : list A) : (enumerate l).*1 = seq 0 (length l).
Proof.
  unfold enumerate. rewrite fmap_imap.
  rewrite (imap_ext _ (λ i _, id i)) by done.
  by rewrite (imap_seq_0 l id), list_fmap_id.
Qed.

Lemma enumerate_values {A} (l : list A) : ((λ ic, (ic.2, ic.1)) <$> enumerate l).*1 = l.
Proof.
  unfold enumerate. rewrite <-list_fmap_compose, fmap_imap.
  rewrite (imap_ext _ (λ _ x, x)) by done.
  apply list_eq. intros i. rewrite list_lookup_imap. by destruct (l !! i).
Qed.

Lemma sorted_elem text c : c ∈ sorted (list_set text) ↔ c ∈ text.
Proof.
  unfold sorted, list_set. rewrite merge_sort_Permutation.
  rewrite elem_of_elements. apply elem_of_list_to_set.
Qed.

Lemma sorted_NoDup text : NoDup (sorted (list_set text)).
Proof.
  unfold sorted, list_set. rewrite merge_sort_Permutation. apply NoDup_elements.
Qed.

(** The order in which the set is iterated does not matter. *)
Lemma sorted_order_independent (l1 l2 : list N) : l1 ≡ₚ l2 → sorted l1 = sorted l2.
Proof.
  intros Hp. unfold sorted.
  apply (Sorted_unique N.le); [apply Sorted_merge_sort, _..|].
  by rewrite !merge_sort_Permutation.
Qed.

Lemma sorted_ordered text : StronglySorted N.le (sorted (list_set text)).
Proof. apply StronglySorted_merge_sort; apply _. Qed.

Lemma StronglySorted_lookup_le (l : list N) i j x y :
  StronglySorted N.le l → i < j → l !! i = Some x → l !! j = Some y → (x ≤ y)%N.
Proof.
  intros Hs. revert i j. induction Hs as [|z l Hs IH Hz]; intros i j Hij Hi Hj; [done|].
  destruct j as [|j]; [lia|]. simpl in Hj. destruct i as [|i]; simpl in Hi.
  - injection Hi as ->. rewrite Forall_forall in Hz. apply Hz.
    by eapply list_elem_of_lookup_2.
  - eapply IH; [|done|done]. lia.
Qed.

Lemma indices_char_lookup self i :
  _indices_char_dict (_generate_char_index self) !! i
  = sorted (list_set (_text self)) !! i.
Proof.
  simpl. destruct (sorted (list_set (_text self)) !! i) as [c|] eqn:Hi.
  - apply dict_lookup; [|by apply enumerate_elem].
    rewrite enumerate_keys. apply NoDup_seq.
  - apply dict_lookup_None. rewrite enumerate_keys, elem_of_seq.
    apply lookup_ge_None in Hi. lia.
Qed.

Lemma char_indices_lookup self c i :
  _char_indices_dict (_generate_char_index self) !! c = Some i
  ↔ sorted (list_set (_text self)) !! i = Some c.
Proof.
  simpl. rewrite dict_lookup.
  - rewrite list_elem_of_fmap. split.
    + intros ([j d] & [= -> ->] & Hin). by apply enumerate_elem.
    + intros Hi. exists (i, c). split; [done|]. by apply enumerate_elem.
  - rewrite enumerate_values. apply sorted_NoDup.
Qed.
End vocabulary.

Section encoding.
Implicit Types (self : TextGeneration) (chars : str).

Lemma one_hot_fill_spec self done chars rest :
  Forall (known self) chars →
  one_hot_fill self (length done) chars
    (done ++ zeros (length chars) (_num_chars self) ++ rest)
  = Ok (done ++ (one_hot self <$> chars) ++ rest).
Proof.
  intros Hk. revert done. induction Hk as [|c chars (j & Hj & Hlt) Hk IH]; intros done.
  - done.
  - cbn [one_hot_fill]. rewrite Hj. cbn [of_option mbind result_bind].
    unfold set_entry, zeros. cbn [length replicate].
    rewrite lookup_app_r by done. rewrite Nat.sub_diag. cbn [lookup list_lookup app].
    rewrite decide_True by (by rewrite length_replicate).
    cbn [mbind result_bind].
    replace (<[length done:=<[j:=true]> (replicate (_num_chars self) false)]>
               (done ++ (replicate (_num_chars self) false
                           :: replicate (length chars) (replicate (_num_chars self) false)) ++ rest))
      with ((done ++ [one_hot self c]) ++ zeros (length chars) (_num_chars self) ++ rest).
    + replace (S (length done)) with (length (done ++ [one_hot self c]))
        by (rewrite length_app; simpl; lia).
      rewrite IH. by rewrite <-app_assoc.
    + rewrite insert_app_r_alt by done. rewrite Nat.sub_diag. simpl.
      unfold one_hot. rewrite Hj. by rewrite <-app_assoc.
Qed.

Lemma vectorize_chars_known self chars :
  Forall (known self) chars →
  vectorize_chars self chars = Ok (one_hot self <$> chars).
Proof.
  intros Hk. unfold vectorize_chars.
  pose proof (one_hot_fill_spec self [] chars [] Hk) as Hf.
  by rewrite !app_nil_r in Hf.
Qed.

Lemma one_hot_fill_unknown self t pre c post m :
  Forall (known self) pre → length pre + t ≤ length m →
  Forall (λ row, length row = _num_chars self) m →
  _char_indices_dict self !! c = None →
  one_hot_fill self t (pre ++ c :: post) m = Raise KeyError.
Proof.
  intros Hk. revert t m. induction Hk as [|d pre (j & Hj & Hlt) Hk IH]; intros t m Hlen Hrows Hc.
  - cbn [app one_hot_fill]. by rewrite Hc.
  - cbn [app one_hot_fill]. rewrite Hj. cbn [of_option mbind result_bind].
    unfold set_entry. simpl in Hlen.
    destruct (lookup_lt_is_Some_2 m t) as [row Hrow]; [lia|]. rewrite Hrow.
    assert (length row = _num_chars self) as Hr.
    { rewrite Forall_forall in Hrows. apply Hrows. by eapply list_elem_of_lookup_2. }
    rewrite decide_True by lia. cbn [mbind result_bind].
    apply IH; [rewrite length_insert; lia| |done].
    apply Forall_insert; [done|]. by rewrite length_insert.
Qed.
End encoding.

Section known_chars.
Implicit Types (self : TextGeneration).

Lemma known_generated self c :
  known (_generate_char_index self) c ↔ c ∈ _text self.
Proof.
  unfold known. split.
  - intros (j & Hj & _). apply char_indices_lookup in Hj.
    apply sorted_elem. by eapply list_elem_of_lookup_2.
  - intros Hc. apply sorted_elem, list_elem_of_lookup in Hc as [j Hj].
    exists j. split; [by apply char_indices_lookup|].
    simpl. by eapply lookup_lt_Some.
Qed.

Lemma unknown_generated self c :
  c ∉ _text self → _char_indices_dict (_generate_char_index self) !! c = None.
Proof.
  intros Hc. destruct (_ !! c) as [j|] eqn:Hj; [|done].
  exfalso. apply Hc. apply char_indices_lookup in Hj.
  apply sorted_elem. by eapply list_elem_of_lookup_2.
Qed.
End known_chars.

Section range_facts.
Lemma ceil_div_0 step : 0 < step → ceil_div 0 step = 0.
Proof. intros Hs. unfold ceil_div. apply Nat.div_small. lia. Qed.

Lemma ceil_div_step n step :
  0 < step → 0 < n → ceil_div n step = S (ceil_div (n - step) step).
Proof.
  intros Hs Hn. unfold ceil_div.
  destruct (decide (n ≤ step)) as [Hle|Hgt].
  - replace (n - step) with 0 by lia.
    rewrite (Nat.div_small (0 + step - 1)) by lia.
    replace (n + step - 1) with (1 * step + (n - 1)) by lia.
    rewrite Nat.div_add_l by lia. rewrite Nat.div_small by lia. done.
  - replace (n + step - 1) with (1 * step + (n - step + step - 1)) by lia.
    rewrite Nat.div_add_l by lia. done.
Qed.

Lemma ceil_div_lt n step k : 0 < step → k < ceil_div n step ↔ k * step < n.
Proof.
  intros Hs. unfold ceil_div. split.
  - intros Hk. destruct (decide (k * step < n)) as [|Hge]; [done|].
    exfalso. assert ((n + step - 1) / step < S k); [|lia].
    apply Nat.Div0.div_lt_upper_bound. nia.
  - intros Hk. apply Nat.div_le_lower_bound; [lia|]. nia.
Qed.

Lemma ceil_div_le_floor n step : 0 < step → ceil_div n step ≤ n / step + 1.
Proof.
  intros Hs. unfold ceil_div.
  replace (n / step + 1) with ((n + 1 * step) / step) by (rewrite Nat.div_add by lia; lia).
  apply Nat.Div0.div_le_mono. lia.
Qed.

Lemma range_from_spec fuel i stop step :
  0 < step → stop - i ≤ fuel →
  range_from fuel i stop step
  = (λ k, i + k * step) <$> seq 0 (ceil_div (stop - i) step).
Proof.
  intros Hs. revert i. induction fuel as [|fuel IH]; intros i Hfuel.
  - replace (stop - i) with 0 by lia. by rewrite ceil_div_0.
  - cbn [range_from]. destruct (decide (i < stop)) as [Hlt|Hge].
    + rewrite ceil_div_step by lia. rewrite IH by lia.
      cbn [seq fmap list_fmap]. f_equal; [lia|].
      replace (stop - i - step) with (stop - (i + step)) by lia.
      rewrite <-fmap_S_seq, <-list_fmap_compose.
      apply list_fmap_ext. intros _ k _. simpl. lia.
    + replace (stop - i) with 0 by lia. by rewrite ceil_div_0.
Qed.

Lemma range_spec stop step :
  0 < step → range stop step = (λ k, k * step) <$> seq 0 (ceil_div stop step).
Proof.
  intros Hs. unfold range. rewrite range_from_spec by lia.
  by rewrite Nat.sub_0_r.
Qed.

Lemma num_sentences_nat T L step :
  0 < step → L ≤ T →
  num_sentences T L step = Z.of_nat ((T - L) / step + 1).
Proof.
  intros Hs HL. unfold num_sentences.
  rewrite Z.quot_div_nonneg by lia.
  replace (Z.of_nat T - Z.of_nat L + Z.of_nat step)%Z
    with (Z.of_nat (T - L + 1 * step)) by lia.
  rewrite <-Nat2Z.inj_div. by rewrite Nat.div_add by lia.
Qed.
End range_facts.

Section windower.
Implicit Types (self : TextGeneration).

Lemma window_step_Ok self step k sentences next_chars :
  0 < step →
  Forall (known self) (_text self) →
  k * step + _sentence_char_len self < length (_text self) →
  k < length sentences → k < length next_chars →
  Forall (λ b, length b = _sentence_char_len self) sentences →
  window_step self step (sentences, next_chars) (k * step)
  = Ok (<[k:=window_sentence self step k]> sentences,
        <[k:=window_target self step k]> next_chars).
Proof.
  intros Hs Hknown Hk Hks Hkn Hblocks. unfold window_step.
  destruct (lookup_lt_is_Some_2 (_text self) (k * step + _sentence_char_len self))
    as [c Hc]; [done|].
  rewrite Hc. cbn [of_option mbind result_bind].
  rewrite (vectorize_chars_known self (take _ _))
    by (by apply Forall_take, Forall_drop).
  cbn [mbind result_bind].
  rewrite Nat.div_mul by lia.
  unfold set_block. destruct (lookup_lt_is_Some_2 sentences k) as [old Hold]; [done|].
  rewrite Hold.
  assert (length old = _sentence_char_len self) as Hlen.
  { rewrite Forall_forall in Hblocks. apply Hblocks. by eapply list_elem_of_lookup_2. }
  rewrite decide_True
    by (rewrite length_fmap, length_take, length_drop; lia).
  cbn [mbind result_bind].
  rewrite vectorize_chars_known.
  2:{ constructor; [|constructor]. rewrite Forall_forall in Hknown.
      apply Hknown. by eapply list_elem_of_lookup_2. }
  cbn [mbind result_bind fmap list_fmap].
  unfold set_row. destruct (lookup_lt_is_Some_2 next_chars k) as [oldr Holdr]; [done|].
  rewrite Holdr. cbn [mbind result_bind].
  unfold window_sentence, window_target. by rewrite Hc.
Qed.

Lemma windows_loop self step n m sentences next_chars :
  0 < step →
  Forall (known self) (_text self) →
  (∀ k, m ≤ k < m + n → k * step + _sentence_char_len self < length (_text self)) →
  m + n ≤ length sentences → m + n ≤ length next_chars →
  Forall (λ b, length b = _sentence_char_len self) sentences →
  for_result ((λ k, k * step) <$> seq m n) (window_step self step)
    (sentences, next_chars)
  = Ok (take m sentences ++ (window_sentence self step <$> seq m n)
          ++ drop (m + n) sentences,
        take m next_chars ++ (window_target self step <$> seq m n)
          ++ drop (m + n) next_chars).
Proof.
  intros Hs Hknown. revert m sentences next_chars.
  induction n as [|n IH]; intros m sentences next_chars Hin Hls Hln Hblocks.
  - cbn [seq fmap list_fmap for_result app]. rewrite Nat.add_0_r.
    by rewrite !take_drop.
  - cbn [seq fmap list_fmap for_result].
    rewrite window_step_Ok; [|done|done|apply Hin; lia|lia|lia|done].
    cbn [mbind result_bind].
    rewrite IH.
    + f_equal. f_equal.
      * rewrite (take_S_r _ _ (window_sentence self step m))
          by (apply list_lookup_insert_eq; lia).
        rewrite take_insert_ge by lia.
        rewrite drop_insert_lt by lia.
        replace (S m + n) with (m + S n) by lia.
        by rewrite <-app_assoc.
      * rewrite (take_S_r _ _ (window_target self step m))
          by (apply list_lookup_insert_eq; lia).
        rewrite take_insert_ge by lia.
        rewrite drop_insert_lt by lia.
        replace (S m + n) with (m + S n) by lia.
        by rewrite <-app_assoc.
    + intros k Hk. apply Hin. lia.
    + rewrite length_insert. lia.
    + rewrite length_insert. lia.
    + apply Forall_insert; [done|].
      unfold window_sentence. rewrite length_fmap, length_take, length_drop.
      specialize (Hin m). lia.
Qed.

(** The arrays that [_generate_training_data] leaves in the object. *)
Lemma windower_result self step :
  0 < step →
  Forall (known self) (_text self) →
  _sentence_char_len self < length (_text self) →
  let T := length (_text self) in
  let L := _sentence_char_len self in
  let n := ceil_div (T - L) step in
  let rows := (T - L) / step + 1 in
  ∃ s, _generate_training_data self step = Ok s ∧
    _text s = _text self ∧ _sentence_char_len s = L ∧
    _num_chars s = _num_chars self ∧
    _char_indices_dict s = _char_indices_dict self ∧
    _indices_char_dict s = _indices_char_dict self ∧
    _sentences s = (window_sentence self step <$> seq 0 n)
                     ++ replicate (rows - n) (zeros L (_num_chars self)) ∧
    _next_chars s = (window_target self step <$> seq 0 n)
                     ++ replicate (rows - n) (replicate (_num_chars self) false).
Proof.
  intros Hs Hknown HL T L n rows.
  unfold _generate_training_data. rewrite decide_False by lia.
  fold T. fold L. rewrite num_sentences_nat by lia. fold rows.
  rewrite decide_False by lia. rewrite Nat2Z.id.
  rewrite range_spec by done. fold n.
  pose proof (ceil_div_le_floor (T - L) step Hs) as Hn. fold n rows in Hn.
  rewrite windows_loop.
  - cbn [mbind result_bind]. eexists. split; [done|]. cbn.
    rewrite !drop_replicate. done.
  - done.
  - done.
  - intros k [_ Hk]. apply ceil_div_lt in Hk; [|done]. fold L T. lia.
  - by rewrite length_replicate.
  - by rewrite length_replicate.
  - apply Forall_replicate. unfold zeros. by rewrite length_replicate.
Qed.
End windower.

Section one_hot_facts.
Implicit Types (self : TextGeneration).

Lemma one_hot_same self s :
  _char_indices_dict s = _char_indices_dict self → _num_chars s = _num_chars self →
  one_hot s = one_hot self.
Proof. intros Hd Hn. unfold one_hot. by rewrite Hd, Hn. Qed.

Lemma one_hot_inj self c d :
  c ∈ _text self → d ∈ _text self →
  one_hot (_generate_char_index self) c = one_hot (_generate_char_index self) d →
  c = d.
Proof.
  intros Hc Hd. apply known_generated in Hc as (i & Hi & Hilt).
  apply known_generated in Hd as (j & Hj & Hjlt).
  unfold one_hot. rewrite Hi, Hj. intros Heq.
  assert (i = j) as ->.
  { destruct (decide (i = j)) as [|Hne]; [done|].
    assert (<[j:=true]> (replicate (_num_chars (_generate_char_index self)) false) !! i
            = Some true) as Hl.
    { rewrite <-Heq. apply list_lookup_insert_eq. by rewrite length_replicate. }
    rewrite list_lookup_insert_ne in Hl by done.
    apply lookup_replicate in Hl as [? _]. done. }
  apply char_indices_lookup in Hi, Hj. congruence.
Qed.
End one_hot_facts.

Lemma indices_char_in_text (self : TextGeneration) i :
  i < _num_chars (_generate_char_index self) →
  ∃ c, _indices_char_dict (_generate_char_index self) !! i = Some c ∧ c ∈ _text self.
Proof.
  intros Hi. cbn [_generate_char_index _num_chars] in Hi.
  destruct (lookup_lt_is_Some_2 _ _ Hi) as [c Hc]. exists c. split.
  - by rewrite indices_char_lookup.
  - apply sorted_elem. by eapply list_elem_of_lookup_2.
Qed.

(** ** The character vocabulary

    Claim C8.  [_generate_char_index] is idempotent, and its result is
    determined by the corpus alone, whatever the order in which the set of
    its characters is listed before sorting; every character of the corpus has an
    index below [_num_chars] that [_indices_char_dict] maps back to it,
    every index below [_num_chars] holds a character of the corpus that
    [_char_indices_dict] maps back to it, and a larger index holds a larger
    code point: the distinct characters in sorted order. *)
Theorem char_index_sorted_bijective (self : TextGeneration) :
  let s := _generate_char_index self in
  _generate_char_index s = s ∧
  (∀ l, l ≡ₚ list_set (_text self) → sorted l = sorted (list_set (_text self))) ∧
  (∀ self', _text self' = _text self →
     _num_chars (_generate_char_index self') = _num_chars s ∧
     _indices_char_dict (_generate_char_index self') = _indices_char_dict s ∧
     _char_indices_dict (_generate_char_index self') = _char_indices_dict s) ∧
  (∀ c, c ∈ _text self →
     ∃ i, i < _num_chars s ∧ _char_indices_dict s !! c = Some i ∧
          _indices_char_dict s !! i = Some c) ∧
  (∀ i, i < _num_chars s →
     ∃ c, c ∈ _text self ∧ _indices_char_dict s !! i = Some c ∧
          _char_indices_dict s !! c = Some i) ∧
  (∀ i j c d, i < j →
     _indices_char_dict s !! i = Some c → _indices_char_dict s !! j = Some d →
     (c < d)%N).
Proof.
  intros s. split_and!.
  - reflexivity.
  - intros l Hl. by apply sorted_order_independent.
  - intros self' Ht. subst s. cbn. by rewrite Ht.
  - intros c Hc. apply known_generated in Hc as (i & Hi & Hlt).
    exists i. split_and!; [done|done|].
    subst s. rewrite indices_char_lookup. by apply char_indices_lookup.
  - intros i Hi. subst s. cbn [_generate_char_index _num_chars] in Hi.
    destruct (lookup_lt_is_Some_2 _ _ Hi) as [c Hc]. exists c. split_and!.
    + apply sorted_elem. by eapply list_elem_of_lookup_2.
    + by rewrite indices_char_lookup.
    + by apply char_indices_lookup.
  - intros i j c d Hij. subst s. rewrite !indices_char_lookup. intros Hi Hj.
    pose proof (StronglySorted_lookup_le _ _ _ _ _ (sorted_ordered (_text self)) Hij Hi Hj).
    assert (c ≠ d); [|lia]. intros ->.
    pose proof (NoDup_lookup _ _ _ _ (sorted_NoDup (_text self)) Hi Hj). lia.
Qed.

Lemma char_index_sorted_bijective_witness :
  let s := _generate_char_index (blank (codes "hello") 40) in
  _num_chars s = 4 ∧
  _indices_char_dict s !! 0 = Some 101%N ∧ _indices_char_dict s !! 1 = Some 104%N ∧
  _indices_char_dict s !! 2 = Some 108%N ∧ _indices_char_dict s !! 3 = Some 111%N ∧
  (∀ c, c ∈ codes "hello" →
     ∃ i, i < 4 ∧ _char_indices_dict s !! c = Some i ∧ _indices_char_dict s !! i = Some c).
Proof.
  intros s. split_and!; [vm_compute; reflexivity..|].
  exact (proj1 (proj2 (proj2 (proj2
           (char_index_sorted_bijective (blank (codes "hello") 40)))))).
Defined.

(** ** The sequence windower

    Claim C4, as the code has it.  For a corpus of length [T > L] and a
    positive stride the loop of lines 123-127 writes exactly
    [ceil((T - L) / step)] windows: row [i] of [_sentences] is the one-hot
    encoding of [text[i*step : i*step+L]] and row [i] of [_next_chars] that
    of [text[i*step+L]], for every [i] below that number, and no row from
    that number on is written; the encoding tells the characters of the
    corpus apart.  For [T = 100], [L = 40], [step = 3] these are twenty
    windows. *)
Theorem windower_windows (text : str) (L step : nat) :
  L < length text → 0 < step →
  let n := ceil_div (length text - L) step in
  ∃ s, init text L step = Ok s ∧
    (∀ i, i < n →
       _sentences s !! i = Some (one_hot s <$> take L (drop (i * step) text)) ∧
       ∃ c, text !! (i * step + L) = Some c ∧ _next_chars s !! i = Some (one_hot s c)) ∧
    (∀ i b, n ≤ i → _sentences s !! i = Some b → b = zeros L (_num_chars s)) ∧
    (∀ i r, n ≤ i → _next_chars s !! i = Some r → r = replicate (_num_chars s) false) ∧
    (∀ c d, c ∈ text → d ∈ text → one_hot s c = one_hot s d → c = d).
Proof.
  intros HL Hs n. unfold init.
  set (self := _generate_char_index (blank text L)).
  destruct (windower_result self step Hs) as
    (s & Hgen & Htext & HsL & Hnc & Hci & Hic & Hsent & Hnext).
  { apply Forall_forall. intros c Hc. by apply known_generated. }
  { done. }
  cbn [self _generate_char_index _text _sentence_char_len blank] in Hsent, Hnext.
  fold self in Hsent, Hnext. fold n in Hsent, Hnext.
  exists s. split; [done|].
  rewrite (one_hot_same self s) by done. rewrite Hnc.
  split_and!.
  - intros i Hi. split.
    + rewrite Hsent, lookup_app_l by (by rewrite length_fmap, length_seq).
      rewrite list_lookup_fmap, lookup_seq_lt by done. done.
    + destruct (lookup_lt_is_Some_2 text (i * step + L)) as [c Hc].
      { apply ceil_div_lt in Hi; [|done]. lia. }
      exists c. split; [done|].
      rewrite Hnext, lookup_app_l by (by rewrite length_fmap, length_seq).
      rewrite list_lookup_fmap, lookup_seq_lt by done. simpl.
      unfold window_target. cbn [self _generate_char_index _text _sentence_char_len blank].
      by rewrite Hc.
  - intros i b Hi. rewrite Hsent, lookup_app_r by (by rewrite length_fmap, length_seq).
    by intros [-> _]%lookup_replicate.
  - intros i r Hi. rewrite Hnext, lookup_app_r by (by rewrite length_fmap, length_seq).
    by intros [-> _]%lookup_replicate.
  - intros c d Hc Hd. by apply one_hot_inj.
Qed.

(** The instance [T = 100], [L = 40], [step = 3] of claim C4: twenty
    windows. *)
Lemma windower_windows_witness :
  length (cyclic_text 100) = 100 ∧
  ∃ s, init (cyclic_text 100) 40 3 = Ok s ∧
    ∀ i, i < 20 →
      _sentences s !! i = Some (one_hot s <$> take 40 (drop (i * 3) (cyclic_text 100))) ∧
      ∃ c, cyclic_text 100 !! (i * 3 + 40) = Some c ∧ _next_chars s !! i = Some (one_hot s c).
Proof.
  split; [reflexivity|].
  destruct (windower_windows (cyclic_text 100) 40 3) as (s & Hinit & Hw & _).
  - vm_compute. lia.
  - lia.
  - exists s. split; [exact Hinit|exact Hw].
Defined.

(** Claim C4 as stated fails where the stride does not divide [T - L]:
    with [T = 101], [L = 40], [step = 3] the floor is twenty, and there is
    a twenty-first window, [text[60:100]] with target [text[100]]. *)
Lemma windower_floor_counterexample :
  let text := cyclic_text 101 in
  length text = 101 ∧ (length text - 40) / 3 = 20 ∧
  ∃ s, init text 40 3 = Ok s ∧
    _sentences s !! 20 = Some (one_hot s <$> take 40 (drop (20 * 3) text)) ∧
    _next_chars s !! 20 = one_hot s <$> text !! (20 * 3 + 40) ∧
    _sentences s !! 20 ≠ Some (zeros 40 (_num_chars s)).
Proof.
  intros text. split_and!; [reflexivity|reflexivity|].
  eexists. split; [vm_compute; reflexivity|].
  split_and!; [vm_compute; reflexivity|vm_compute; reflexivity|by vm_compute].
Qed.

(** The arrays have one row more than there are windows when the stride
    divides [T - L]: the last row is never written. *)
Example windower_padding_row :
  ∃ s, init (cyclic_text 100) 40 3 = Ok s ∧
       length (_sentences s) = 21 ∧ length (_next_chars s) = 21 ∧
       _sentences s !! 20 = Some (zeros 40 (_num_chars s)) ∧
       _next_chars s !! 20 = Some (replicate (_num_chars s) false).
Proof.
  eexists. split; [vm_compute; reflexivity|].
  split_and!; vm_compute; reflexivity.
Qed.

(** ** Standard output *)

Section py_facts.
Lemma bind_lift_Ok {A B} (a : A) (f : A → py B) w : (lift (Ok a) ≫= f) w = f a w.
Proof. reflexivity. Qed.
Lemma bind_lift_Raise {A B} e (f : A → py B) w : (lift (Raise e) ≫= f) w = (Raise e, w).
Proof. reflexivity. Qed.
Lemma bind_emit {B} e (f : unit → py B) w : (emit e ≫= f) w = f tt (say [e] w).
Proof. reflexivity. Qed.
Lemma emit_run e w : emit e w = (Ok tt, say [e] w).
Proof. reflexivity. Qed.
Lemma bind_draw {B} (f : nat → py B) w :
  (draw ≫= f) w = f (draws w) (World (stdout w) (S (draws w))).
Proof. reflexivity. Qed.
Lemma bind_Ok {A B} (m : py A) (f : A → py B) w a w' :
  m w = (Ok a, w') → (m ≫= f) w = f a w'.
Proof. intros Hm. unfold mbind, py_bind. by rewrite Hm. Qed.
Lemma bind_Raise {A B} (m : py A) (f : A → py B) w e w' :
  m w = (Raise e, w') → (m ≫= f) w = (Raise e, w').
Proof. intros Hm. unfold mbind, py_bind. by rewrite Hm. Qed.

Lemma say_say evs1 evs2 w : say evs2 (say evs1 w) = say (evs1 ++ evs2) w.
Proof. unfold say. simpl. by rewrite app_assoc. Qed.
Lemma say_nil w : say [] w = w.
Proof. destruct w. unfold say. simpl. by rewrite app_nil_r. Qed.

Lemma written_app evs1 evs2 : written (evs1 ++ evs2) = written evs1 ++ written evs2.
Proof. unfold written. apply flat_map_app. Qed.
End py_facts.

Section generation_facts.
Context `{Runtime}.
Implicit Types (self : TextGeneration) (w : world).




End generation_facts.

Section init_facts.
Implicit Types (self : TextGeneration) (text : str).

Lemma init_fields text L step self :
  init text L step = Ok self →
  _sentence_char_len self = L ∧ _text self = text ∧
  _num_chars self = _num_chars (_generate_char_index (blank text L)) ∧
  _indices_char_dict self = _indices_char_dict (_generate_char_index (blank text L)) ∧
  _char_indices_dict self = _char_indices_dict (_generate_char_index (blank text L)).
Proof.
  unfold init, _generate_training_data.
  destruct (decide (step = 0)); [done|]. destruct (decide _); [done|].
  destruct (for_result _ _ _) as [[sentences next_chars]|e]; [|done].
  cbn [mbind result_bind]. by intros [= <-].
Qed.

Lemma init_known text L step self c :
  init text L step = Ok self → known self c ↔ c ∈ text.
Proof.
  intros (_ & _ & Hn & _ & Hd)%init_fields.
  rewrite <-(known_generated (blank text L)). unfold known. by rewrite Hn, Hd.
Qed.

Lemma init_unknown text L step self c :
  init text L step = Ok self → c ∉ text → _char_indices_dict self !! c = None.
Proof.
  intros (_ & _ & _ & _ & Hd)%init_fields Hc. rewrite Hd.
  by apply (unknown_generated (blank text L)).
Qed.

Lemma init_num_chars_lookup text L step self i :
  init text L step = Ok self → i < _num_chars self →
  ∃ c, _indices_char_dict self !! i = Some c ∧ c ∈ text.
Proof.
  intros (_ & _ & Hn & Hi & _)%init_fields Hlt. rewrite Hn in Hlt. rewrite Hi.
  destruct (indices_char_in_text (blank text L) i Hlt) as (c & ? & ?).
  eauto.
Qed.

Lemma first_unknown text (window : str) :
  ¬ Forall (λ c, c ∈ text) window →
  ∃ pre c post, window = pre ++ c :: post ∧ Forall (λ c, c ∈ text) pre ∧ c ∉ text.
Proof.
  induction window as [|c window IH]; intros Hn.
  - destruct Hn. constructor.
  - destruct (decide (c ∈ text)) as [Hc|Hc].
    + destruct IH as (pre & c' & post & -> & Hpre & Hc').
      { intros HF. apply Hn. by constructor. }
      exists (c :: pre), c', post. split_and!; [done|by constructor|done].
    + exists [], c, window. split_and!; [done|constructor|done].
Qed.
End init_facts.

Section generate_text_facts.
Context `{Runtime}.
Implicit Types (self : TextGeneration) (w : world).


Lemma generate_text_window self raw_seed M :
  40 ≤ length (lower raw_seed) →
  generate_text self (Some raw_seed) M
  = for_py diversities
      (generation_run self (lower raw_seed)
         (drop (length (lower raw_seed) - 40) (lower raw_seed)) M).
Proof.
  intros Hlen. unfold generate_text. cbn [default from_option]. unfold id.
  destruct (decide (40 < length (lower raw_seed))) as [|Hle]; [reflexivity|].
  rewrite decide_False by lia.
  replace (length (lower raw_seed) - 40) with 0 by lia. reflexivity.
Qed.

Lemma generation_run_unknown self raw_seed seed M d w pre c post :
  40 ≤ _sentence_char_len self → (0 < M)%Z →
  seed = pre ++ c :: post → length seed = 40 →
  Forall (known self) pre → _char_indices_dict self !! c = None →
  generation_run self raw_seed seed M d w
  = (Raise KeyError,
     say [PrintDiversity d;
          PrintLine (codes "----- Generating with seed: " ++ [quote] ++ raw_seed ++ [quote]);
          StdoutWrite raw_seed] w).
Proof.
  intros HL HM -> Hlen Hpre Hc. unfold generation_run. rewrite !bind_emit.
  destruct (Z.to_nat M) as [|n] eqn:Hn; [lia|].
  erewrite bind_Raise.
  2:{ cbn [generate_chars].
      rewrite one_hot_fill_unknown; [apply bind_lift_Raise|done| | |done].
      - rewrite length_app in Hlen. simpl in Hlen. unfold zeros.
        rewrite length_replicate. lia.
      - apply Forall_replicate. by rewrite length_replicate. }
  by rewrite !say_say.
Qed.
End generate_text_facts.

(** ** generate_text *)

Lemma example_object_init : init example_corpus 40 3 = Ok example_object.
Proof. vm_compute. reflexivity. Qed.

(** Claim C5, as the code has it.  A seed whose lowercased form has fewer
    than 40 characters, the bound written into [generate_text], raises
    nothing: the call prints "Please input a seed of at least 40
    characters" and returns, without drawing a sample and without writing
    any generated text. *)
Theorem short_seed_prints_and_returns `{Runtime} (self : TextGeneration)
    (raw_seed : str) (M : Z) (w : world) :
  length (lower raw_seed) < 40 →
  generate_text self (Some raw_seed) M w
  = (Ok tt, World (stdout w ++ [PrintLine seed_too_short]) (draws w)).
Proof.
  intros Hlen. unfold generate_text. cbn [default from_option]. unfold id.
  rewrite decide_False by lia. rewrite decide_True by done. reflexivity.
Qed.

Lemma short_seed_prints_and_returns_witness :
  generate_text (H:=ascii_runtime (λ _, 0)) example_object (Some (codes "abc")) 400 (World [] 0)
  = (Ok tt, World [PrintLine seed_too_short] 0).
Proof.
  refine (short_seed_prints_and_returns (H:=ascii_runtime (λ _, 0))
            example_object (codes "abc") 400 (World [] 0) _).
  vm_compute. lia.
Defined.

(** Claim C5 as stated fails twice over.  A seed of three characters does
    not make the call fail: it returns.  And the bound is 40, not the
    window length [L]: with [L = 50] a seed of 45 characters is accepted,
    and each of the four runs writes it followed by a generated
    character. *)
Lemma short_seed_counterexample :
  let seed45 := codes "he who has a why to live can bear almost any " in
  (length (codes "abc") < 40 ∧
   ∀ e, (generate_text (H:=ascii_runtime (λ _, 0)) example_object
           (Some (codes "abc")) 400 (World [] 0)).1 ≠ Raise e) ∧
  (_sentence_char_len wide_object = 50 ∧ length seed45 = 45 ∧
   ∃ w', generate_text (H:=ascii_runtime (λ _, 0)) wide_object (Some seed45) 1 (World [] 0)
         = (Ok tt, w') ∧
         written (stdout w') = mjoin (replicate 4 (seed45 ++ [32%N]))).
Proof.
  intros seed45. split.
  - split; [vm_compute; lia|done].
  - split_and!; [reflexivity|reflexivity|].
    eexists. split; vm_compute; reflexivity.
Qed.




(** Claim C10, as the code has it.  Let the object be built from a corpus
    with a window length of at least 40 and let [M > 0].  If the lowercased
    seed has at least 40 characters and one of its last 40, the window that
    is encoded, does not occur in the corpus, then [generate_text] ends
    with [KeyError]; and so does the interactive session that reads this
    seed and then the count [M], since the prompt checks the length of the
    seed and nothing else. *)
Theorem unknown_char_in_window_raises `{Runtime} (text : str) (L step : nat)
    (self : TextGeneration) (raw_seed : str) (M : Z) (w : world) :
  init text L step = Ok self →
  40 ≤ L →
  (0 < M)%Z →
  40 ≤ length (lower raw_seed) →
  ¬ Forall (λ c, c ∈ text) (drop (length (lower raw_seed) - 40) (lower raw_seed)) →
  (∃ w', generate_text self (Some raw_seed) M w = (Raise KeyError, w')) ∧
  (∀ count stdin,
     40 ≤ length raw_seed → raw_seed ≠ codes "exit" →
     count ≠ codes "exit" → int count = Some M →
     ∃ w', prompt self (raw_seed :: count :: stdin) w = (Raise KeyError, w')).
Proof.
  intros Hinit HL HM Hlen Hbad.
  pose proof (init_fields _ _ _ _ Hinit) as (HsL & _).
  assert (∀ w, ∃ w', generate_text self (Some raw_seed) M w = (Raise KeyError, w')) as Hgen.
  { intros w0. rewrite generate_text_window by done.
    destruct (first_unknown _ _ Hbad) as (pre & c & post & Hsplit & Hpre & Hc).
    unfold diversities. cbn [for_py].
    erewrite bind_Raise; [eauto|].
    eapply generation_run_unknown; [lia|done|done| | |].
    - rewrite length_drop. lia.
    - eapply Forall_impl; [exact Hpre|]. intros c' Hc'. by eapply init_known.
    - by eapply init_unknown. }
  split; [apply Hgen|].
  intros count stdin Hraw Hexit Hcount Hint.
  unfold prompt. cbn [prompt_loop]. rewrite bind_emit.
  rewrite decide_False by done. rewrite decide_False by lia.
  cbn [prompt_loop]. rewrite bind_emit.
  rewrite decide_False by done. rewrite Hint. rewrite decide_False by lia.
  rewrite bind_emit.
  destruct (Hgen (say [PrintLine (codes "Generating text...")]
                    (say [InputPrompt input_number_of_characters]
                       (say [InputPrompt input_text_message] w)))) as [w' Hw'].
  erewrite bind_Raise by exact Hw'. eauto.
Qed.

Lemma unknown_char_in_window_raises_witness :
  ∃ w', generate_text (H:=ascii_runtime (λ _, 0)) example_object
          (Some (codes "he who has a why to live can bear @lmost")) 1 (World [] 0)
        = (Raise KeyError, w').
Proof.
  refine (proj1 (unknown_char_in_window_raises (H:=ascii_runtime (λ _, 0)) example_corpus 40 3
                   example_object (codes "he who has a why to live can bear @lmost") 1
                   (World [] 0) _ _ _ _ _)).
  - exact example_object_init.
  - lia.
  - lia.
  - vm_compute. lia.
  - apply (bool_decide_unpack _). vm_compute. exact I.
Defined.

(** Claim C10 as stated fails: a character outside the vocabulary that
    stands before the last 40 characters of the seed is never encoded, and
    with [M = 0] nothing is encoded at all; both calls return. *)
Lemma unknown_char_outside_window_counterexample :
  let seed := codes "@he who has a why to live can bear almost" in
  let foreign := codes "he who has a why to live can bear @lmost" in
  _char_indices_dict example_object !! 64%N = None ∧
  (40 ≤ length seed ∧ 64%N ∈ fmap ascii_lower seed ∧
   ∃ w', generate_text (H:=ascii_runtime (λ _, 0)) example_object (Some seed) 1 (World [] 0)
         = (Ok tt, w')) ∧
  (40 ≤ length foreign ∧ 64%N ∈ fmap ascii_lower foreign ∧
   ∃ w', generate_text (H:=ascii_runtime (λ _, 0)) example_object (Some foreign) 0 (World [] 0)
         = (Ok tt, w')).
Proof.
  intros seed foreign. split_and!.
  - vm_compute. reflexivity.
  - vm_compute. lia.
  - apply (bool_decide_unpack _). vm_compute. exact I.
  - eexists. vm_compute. reflexivity.
  - vm_compute. lia.
  - apply (bool_decide_unpack _). vm_compute. exact I.
  - eexists. vm_compute. reflexivity.
Qed.

(** ** prompt *)

Section prompt_facts.
Context `{Runtime}.
Implicit Types (self : TextGeneration) (w : world) (stdin : list str).

Lemma prompt_exit_at_seed self stdin w :
  prompt_loop self None (codes "exit" :: stdin) w
  = (Ok tt, say [InputPrompt input_text_message; PrintLine (codes "Exiting...")] w).
Proof.
  cbn [prompt_loop]. rewrite bind_emit, decide_True by done.
  by rewrite emit_run, say_say.
Qed.

Lemma prompt_exit_at_count self seed stdin w :
  prompt_loop self (Some seed) (codes "exit" :: stdin) w
  = (Ok tt, say [InputPrompt input_number_of_characters; PrintLine (codes "Exiting...")] w).
Proof.
  cbn [prompt_loop]. rewrite bind_emit, decide_True by done.
  by rewrite emit_run, say_say.
Qed.

Lemma prompt_short_seed_reprompts self line stdin w :
  line ≠ codes "exit" → length line < 40 →
  prompt_loop self None (line :: stdin) w
  = prompt_loop self None stdin
      (say [InputPrompt input_text_message; PrintLine seed_too_short] w).
Proof.
  intros Hexit Hlen. cbn [prompt_loop].
  rewrite bind_emit, decide_False, decide_True by done.
  by rewrite bind_emit, say_say.
Qed.

Lemma prompt_malformed_count_reprompts self seed line stdin w :
  line ≠ codes "exit" → int line = None →
  prompt_loop self (Some seed) (line :: stdin) w
  = prompt_loop self (Some seed) stdin
      (say [InputPrompt input_number_of_characters;
            PrintLine (codes "Please enter an integer")] w).
Proof.
  intros Hexit Hint. cbn [prompt_loop].
  rewrite bind_emit, decide_False by done. rewrite Hint.
  by rewrite bind_emit, say_say.
Qed.

Lemma prompt_negative_count_reprompts self seed line stdin w n :
  line ≠ codes "exit" → int line = Some n → (n < 0)%Z →
  prompt_loop self (Some seed) (line :: stdin) w
  = prompt_loop self (Some seed) stdin
      (say [InputPrompt input_number_of_characters;
            PrintLine (codes "Please enter an positive integer")] w).
Proof.
  intros Hexit Hint Hn. cbn [prompt_loop].
  rewrite bind_emit, decide_False by done. rewrite Hint.
  rewrite decide_True by done.
  by rewrite bind_emit, say_say.
Qed.

Lemma prompt_end_of_input self raw_seed w :
  ∃ w', prompt_loop self raw_seed [] w = (Raise EOFError, w').
Proof. destruct raw_seed; cbn [prompt_loop]; rewrite bind_emit; eauto. Qed.
End prompt_facts.

(** Claim C9.  What the interactive session does with a count of zero: a
    line that [int] reads as [0] is not answered with "Please enter an
    positive integer" and a new prompt; the session prints "Generating
    text...", calls [generate_text] with zero characters to generate and
    goes back to the prompt for a seed. *)
Theorem prompt_zero_triggers_generation `{Runtime} (self : TextGeneration)
    (seed line : str) (stdin : list str) (w : world) :
  line ≠ codes "exit" →
  int line = Some 0%Z →
  prompt_loop self (Some seed) (line :: stdin) w
  = (generate_text self (Some seed) 0;; prompt_loop self None stdin)
      (say [InputPrompt input_number_of_characters;
            PrintLine (codes "Generating text...")] w).
Proof.
  intros Hexit Hint. cbn [prompt_loop].
  rewrite bind_emit, decide_False by done. rewrite Hint.
  rewrite decide_False by lia.
  by rewrite bind_emit, say_say.
Qed.

Lemma prompt_zero_triggers_generation_witness :
  let seed := codes "he who has a why to live can bear almost" in
  prompt (H:=ascii_runtime (λ _, 0)) example_object [seed; codes "0"; codes "exit"] (World [] 0)
  = (Ok tt,
     World ([InputPrompt input_text_message;
             InputPrompt input_number_of_characters;
             PrintLine (codes "Generating text...")]
            ++ concat ((λ d, run_events seed d []) <$> diversities)
            ++ [InputPrompt input_text_message; PrintLine (codes "Exiting...")]) 0).
Proof.
  intros seed. unfold prompt.
  change (prompt_loop example_object None [seed; codes "0"; codes "exit"] (World [] 0))
    with (prompt_loop (H:=ascii_runtime (λ _, 0)) example_object (Some seed)
            [codes "0"; codes "exit"] (say [InputPrompt input_text_message] (World [] 0))).
  rewrite (prompt_zero_triggers_generation (H:=ascii_runtime (λ _, 0))
             example_object seed (codes "0") [codes "exit"]).
  - vm_compute. reflexivity.
  - by vm_compute.
  - reflexivity.
Defined.

(** * Further properties of the text generator *)

Section vocabulary_more.
Implicit Types (text : str) (self : TextGeneration).

Lemma sorted_length text : length (sorted (list_set text)) = size (list_to_set text : gset N).
Proof. unfold sorted, list_set. by rewrite merge_sort_Permutation. Qed.

Lemma list_set_length_le text : length (list_set text) ≤ length text.
Proof.
  unfold list_set. apply submseteq_length, NoDup_submseteq; [apply NoDup_elements|].
  intros c Hc. by apply elem_of_elements, elem_of_list_to_set in Hc.
Qed.

Lemma sorted_strict text : StronglySorted N.lt (sorted (list_set text)).
Proof.
  pose proof (sorted_ordered text) as Hs. pose proof (sorted_NoDup text) as Hn.
  induction Hs as [|c l Hs IH Hc]; [constructor|].
  apply NoDup_cons in Hn as [Hc' Hn]. constructor; [by apply IH|].
  rewrite Forall_forall in Hc |- *. intros d Hd.
  specialize (Hc d Hd). assert (c ≠ d) by (intros ->; done). lia.
Qed.

Lemma filter_below_sorted (l : list N) i c :
  StronglySorted N.lt l → l !! i = Some c →
  filter (λ d, (d < c)%N) l = take i l.
Proof.
  intros Hs. revert i. induction Hs as [|x l Hs IH Hx]; intros i Hi; [done|].
  rewrite Forall_forall in Hx. destruct i as [|i]; simpl in Hi.
  - injection Hi as ->. rewrite filter_cons_False by lia.
    cbn [take]. apply elem_of_nil_inv. intros d [Hlt Hd]%list_elem_of_filter.
    specialize (Hx d Hd). lia.
  - rewrite filter_cons_True by (apply Hx; by eapply list_elem_of_lookup_2).
    cbn [take]. f_equal. by apply IH.
Qed.
End vocabulary_more.

(** Property X5.  After [_generate_char_index] the number of
    characters is the number of distinct characters of the corpus: at most
    its length, and zero for the empty corpus only; [char_indices] is
    defined on the characters of the corpus only and [indices_char] on the
    indices below [num_chars] only. *)
Theorem vocabulary_domains (self : TextGeneration) :
  let s := _generate_char_index self in
  _num_chars s = size (list_to_set (_text self) : gset N) ∧
  _num_chars s ≤ length (_text self) ∧
  (_num_chars s = 0 ↔ _text self = []) ∧
  (∀ c, _char_indices_dict s !! c = None ↔ c ∉ _text self) ∧
  (∀ i, _indices_char_dict s !! i = None ↔ _num_chars s ≤ i).
Proof.
  intros s. split_and!.
  - apply sorted_length.
  - subst s. cbn [_generate_char_index _num_chars]. unfold sorted.
    rewrite merge_sort_Permutation. apply list_set_length_le.
  - subst s. cbn [_generate_char_index _num_chars]. rewrite sorted_length.
    rewrite size_empty_iff. split.
    + intros He. destruct (_text self) as [|c t]; [done|].
      exfalso. assert (c ∈ (list_to_set (c :: t) : gset N)) as Hc by set_solver.
      rewrite He in Hc. set_solver.
    + by intros ->.
  - intros c. split.
    + intros Hn Hc. apply (known_generated self) in Hc as (j & Hj & _).
      subst s. congruence.
    + apply unknown_generated.
  - intros i. subst s. rewrite indices_char_lookup. apply lookup_ge_None.
Qed.

(** Property X6.  The index of a character of the corpus is its rank:
    the number of distinct characters of the corpus with a smaller code
    point. *)
Theorem char_index_is_rank (self : TextGeneration) (c : N) :
  c ∈ _text self →
  _char_indices_dict (_generate_char_index self) !! c
  = Some (length (filter (λ d, (d < c)%N) (list_set (_text self)))).
Proof.
  intros Hc. apply sorted_elem, list_elem_of_lookup in Hc as [i Hi].
  apply char_indices_lookup.
  assert (length (filter (λ d, (d < c)%N) (list_set (_text self))) = i) as ->; [|done].
  transitivity (length (filter (λ d, (d < c)%N) (sorted (list_set (_text self))))).
  - apply Permutation_length. unfold sorted. by rewrite merge_sort_Permutation.
  - rewrite (filter_below_sorted _ i c) by (apply sorted_strict || done).
    rewrite length_take. apply lookup_lt_Some in Hi. lia.
Qed.

Lemma char_index_is_rank_witness :
  _char_indices_dict (_generate_char_index (blank (codes "hello") 40)) !! 108%N = Some 2.
Proof.
  refine (eq_trans (char_index_is_rank (blank (codes "hello") 40) 108%N _) _).
  - apply (bool_decide_unpack _). vm_compute. exact I.
  - vm_compute. reflexivity.
Defined.

(** Property X7.  [vectorize_chars] (lines 103-113) returns one row per
    character, each with a single [True] at the index of the character,
    when every character occurs in the corpus; it raises [KeyError]
    otherwise. *)
Theorem vectorize_chars_one_hot (self0 : TextGeneration) (char_string : str) :
  let self := _generate_char_index self0 in
  (Forall (λ c, c ∈ _text self0) char_string →
   ∃ rows, vectorize_chars self char_string = Ok rows ∧
     length rows = length char_string ∧
     ∀ k c, char_string !! k = Some c →
       ∃ j, _char_indices_dict self !! c = Some j ∧ j < _num_chars self ∧
            rows !! k = Some (<[j:=true]> (replicate (_num_chars self) false))) ∧
  (¬ Forall (λ c, c ∈ _text self0) char_string →
   vectorize_chars self char_string = Raise KeyError).
Proof.
  intros self. subst self. set (self := _generate_char_index self0). split.
  - intros Hin. exists (one_hot self <$> char_string). split_and!.
    + apply vectorize_chars_known. eapply Forall_impl; [exact Hin|].
      intros c Hc. by apply known_generated.
    + by rewrite length_fmap.
    + intros k c Hk. rewrite Forall_forall in Hin.
      assert (c ∈ _text self0) as Hc by (apply Hin; by eapply list_elem_of_lookup_2).
      apply (known_generated self0) in Hc as (j & Hj & Hlt).
      exists j. split_and!; [done|done|].
      rewrite list_lookup_fmap, Hk. simpl. unfold one_hot. subst self. by rewrite Hj.
  - intros Hbad. destruct (first_unknown _ _ Hbad) as (pre & c & post & -> & Hpre & Hc).
    unfold vectorize_chars. apply one_hot_fill_unknown.
    + eapply Forall_impl; [exact Hpre|]. intros d Hd. by apply known_generated.
    + unfold zeros. rewrite length_replicate, length_app. simpl. lia.
    + apply Forall_replicate. by rewrite length_replicate.
    + by apply unknown_generated.
Qed.

Lemma vectorize_chars_one_hot_witness :
  vectorize_chars (_generate_char_index (blank (codes "hello") 40)) (codes "he")
  = Ok [[false; true; false; false]; [true; false; false; false]] ∧
  vectorize_chars (_generate_char_index (blank (codes "hello") 40)) (codes "hex")
  = Raise KeyError.
Proof.
  split.
  - destruct (proj1 (vectorize_chars_one_hot (blank (codes "hello") 40) (codes "he")))
      as (rows & Hv & _).
    + apply (bool_decide_unpack _). vm_compute. exact I.
    + pose proof Hv as Hv'. vm_compute in Hv'. injection Hv' as <-. exact Hv.
  - refine (proj2 (vectorize_chars_one_hot (blank (codes "hello") 40) (codes "hex")) _).
    apply (bool_decide_unpack _). vm_compute. exact I.
Defined.

Section windower_more.
Lemma ceil_div_floor n step :
  0 < step →
  ceil_div n step = n / step + (if decide (n `mod` step = 0) then 0 else 1).
Proof.
  intros Hs. pose proof (Nat.div_mod_eq n step) as Hn.
  pose proof (Nat.mod_upper_bound n step) as Hm.
  assert (∀ k, k < ceil_div n step ↔ k * step < n) as Hc
    by (intros k; by apply ceil_div_lt).
  destruct (decide (n `mod` step = 0)) as [H0|H0].
  - assert (ceil_div n step ≤ n / step).
    { destruct (decide (ceil_div n step ≤ n / step)) as [|Hgt]; [done|].
      assert (n / step < ceil_div n step) as Hlt%Hc by lia. nia. }
    assert (n / step ≤ ceil_div n step).
    { destruct (decide (n / step ≤ ceil_div n step)) as [|Hgt]; [done|].
      assert (¬ ceil_div n step * step < n) as Hn' by (rewrite <-Hc; lia). nia. }
    lia.
  - assert (n / step < ceil_div n step) by (apply Hc; nia).
    assert (¬ (n / step + 1 < ceil_div n step)) by (rewrite Hc; nia).
    lia.
Qed.

Lemma num_sentences_short T L step :
  0 < step → T ≤ L →
  (T + 2 * step ≤ L → (num_sentences T L step < 0)%Z) ∧
  (L < T + 2 * step →
   num_sentences T L step = (if decide (T = L) then 1 else 0)%Z).
Proof.
  intros Hs HL. unfold num_sentences. split.
  - intros Hfar.
    assert (Z.of_nat T - Z.of_nat L + Z.of_nat step ≤ - Z.of_nat step)%Z as Hnum by lia.
    pose proof (Z.quot_le_mono _ _ (Z.of_nat step) ltac:(lia) Hnum) as Hq.
    rewrite Z.quot_opp_l, Z.quot_same in Hq by lia. lia.
  - intros Hnear. destruct (decide (T = L)) as [->|Hne].
    + replace (Z.of_nat L - Z.of_nat L + Z.of_nat step)%Z with (Z.of_nat step) by lia.
      apply Z.quot_same. lia.
    + apply Z.quot_small_iff; [lia|]. lia.
Qed.
End windower_more.

(** Property X8.  The constructor on a corpus that is not longer than
    the window: a stride of zero raises [ZeroDivisionError]; otherwise
    [np.zeros] raises [ValueError] for a negative number of rows when the
    corpus is at least two strides shorter than the window, and else the
    object is built without any window (a single all-zero row when the
    corpus has exactly the length of the window). *)
Theorem windower_short_corpus (text : str) (L step : nat) :
  (step = 0 → init text L step = Raise ZeroDivisionError) ∧
  (0 < step → length text ≤ L →
   (length text + 2 * step ≤ L → init text L step = Raise ValueError) ∧
   (L < length text + 2 * step →
    ∃ s, init text L step = Ok s ∧
         _sentences s
           = replicate (if decide (length text = L) then 1 else 0) (zeros L (_num_chars s)) ∧
         _next_chars s
           = replicate (if decide (length text = L) then 1 else 0)
               (replicate (_num_chars s) false))).
Proof.
  split.
  - intros ->. reflexivity.
  - intros Hs HL. unfold init, _generate_training_data.
    cbn [_generate_char_index _text _sentence_char_len blank].
    rewrite decide_False by lia.
    destruct (num_sentences_short (length text) L step Hs HL) as [Hfar Hnear].
    split.
    + intros H. rewrite decide_True by (by apply Hfar). reflexivity.
    + intros H. rewrite (Hnear H).
      rewrite decide_False by (destruct (decide (length text = L)); lia).
      replace (length text - L) with 0 by lia.
      rewrite range_spec, ceil_div_0 by done. cbn [seq fmap list_fmap for_result].
      cbn [mbind result_bind]. eexists. split; [reflexivity|].
      cbn [_sentences _next_chars _num_chars].
      destruct (decide (length text = L)); done.
Qed.

Lemma windower_short_corpus_witness :
  init (codes "hello") 7 1 = Raise ValueError ∧
  (∃ s, init (codes "hello") 5 1 = Ok s ∧ _sentences s = [zeros 5 4] ∧
        _next_chars s = [[false; false; false; false]]) ∧
  (∃ s, init (codes "hello") 6 1 = Ok s ∧ _sentences s = [] ∧ _next_chars s = []).
Proof.
  pose proof (λ L H1 H2, proj2 (windower_short_corpus (codes "hello") L 1) H1 H2) as Hw.
  split_and!.
  - refine (proj1 (Hw 7 _ _) _); vm_compute; lia.
  - destruct (proj2 (Hw 5 ltac:(lia) ltac:(vm_compute; lia))) as (s & Hs & H1 & H2);
      [vm_compute; lia|].
    exists s. split; [exact Hs|].
    vm_compute in Hs. injection Hs as <-. split; reflexivity.
  - destruct (proj2 (Hw 6 ltac:(lia) ltac:(vm_compute; lia))) as (s & Hs & H1 & H2);
      [vm_compute; lia|].
    exists s. split; [exact Hs|].
    vm_compute in Hs. injection Hs as <-. split; reflexivity.
Defined.

(** Property X9.  The arrays of the windower have
    [int((T-L)/step + 1)] rows: as many as there are windows when the stride
    does not divide [T - L], and one more, a last row that is never
    written, when it does. *)
Theorem windower_row_count (text : str) (L step : nat) (s : TextGeneration) :
  L < length text → 0 < step →
  init text L step = Ok s →
  let rows := (length text - L) / step + 1 in
  length (_sentences s) = rows ∧ length (_next_chars s) = rows ∧
  ((length text - L) `mod` step ≠ 0 → ceil_div (length text - L) step = rows) ∧
  ((length text - L) `mod` step = 0 →
   ceil_div (length text - L) step + 1 = rows ∧
   _sentences s !! (rows - 1) = Some (zeros L (_num_chars s)) ∧
   _next_chars s !! (rows - 1) = Some (replicate (_num_chars s) false)).
Proof.
  intros HL Hs Hinit rows. unfold init in Hinit.
  set (self := _generate_char_index (blank text L)) in *.
  destruct (windower_result self step Hs) as
    (s' & Hgen & _ & _ & Hnc & _ & _ & Hsent & Hnext).
  { apply Forall_forall. intros c Hc. by apply known_generated. }
  { done. }
  assert (s' = s) as -> by congruence.
  cbn [self _generate_char_index _text _sentence_char_len blank] in Hsent, Hnext.
  fold self in Hsent, Hnext. fold rows in Hsent, Hnext.
  pose proof (ceil_div_floor (length text - L) step Hs) as Hceil.
  rewrite Hsent, Hnext, Hnc, !length_app, !length_fmap, !length_seq, !length_replicate.
  destruct (decide ((length text - L) `mod` step = 0)) as [H0|H0].
  - split_and!; [subst rows; lia|subst rows; lia|done|]. intros _.
    assert (ceil_div (length text - L) step + 1 = rows) as Hr by (subst rows; lia).
    split_and!; [done| |].
    + rewrite lookup_app_r by (rewrite length_fmap, length_seq; lia).
      apply lookup_replicate_2. rewrite length_fmap, length_seq. lia.
    + rewrite lookup_app_r by (rewrite length_fmap, length_seq; lia).
      apply lookup_replicate_2. rewrite length_fmap, length_seq. lia.
  - split_and!; [subst rows; lia|subst rows; lia| |done].
    intros _. subst rows. lia.
Qed.

Lemma windower_row_count_witness :
  ∃ s, init (cyclic_text 100) 40 3 = Ok s ∧
       length (_sentences s) = 21 ∧ ceil_div (100 - 40) 3 = 20.
Proof.
  eexists. split; [vm_compute; reflexivity|].
  split; [|reflexivity].
  refine (proj1 (windower_row_count (cyclic_text 100) 40 3 _ _ _ _)).
  - vm_compute. lia.
  - lia.
  - vm_compute. reflexivity.
Defined.

(** Property X10.  Consecutive windows overlap: with a stride of at
    most the window length, window [i+1] starts with the rows of window [i]
    from [step] on, and the row that follows them is the target of window
    [i]. *)
Theorem windower_windows_overlap (text : str) (L step : nat) (s : TextGeneration) (i : nat) :
  L < length text → 0 < step → step ≤ L →
  init text L step = Ok s →
  S i < ceil_div (length text - L) step →
  ∃ b1 b2 r,
    _sentences s !! i = Some b1 ∧ _sentences s !! S i = Some b2 ∧
    _next_chars s !! i = Some r ∧
    drop step b1 = take (L - step) b2 ∧
    b2 !! (L - step) = Some r.
Proof.
  intros HL Hs HsL Hinit Hi. unfold init in Hinit.
  set (self := _generate_char_index (blank text L)) in *.
  destruct (windower_result self step Hs) as
    (s' & Hgen & _ & _ & Hnc & _ & _ & Hsent & Hnext).
  { apply Forall_forall. intros c Hc. by apply known_generated. }
  { done. }
  assert (s' = s) as -> by congruence.
  cbn [self _generate_char_index _text _sentence_char_len blank] in Hsent, Hnext.
  fold self in Hsent, Hnext.
  set (n := ceil_div (length text - L) step) in *.
  assert (S i * step + L < length text) as Hbound.
  { apply ceil_div_lt in Hi; [|done]. lia. }
  exists (window_sentence self step i), (window_sentence self step (S i)),
         (window_target self step i).
  split_and!.
  - rewrite Hsent, lookup_app_l by (rewrite length_fmap, length_seq; lia).
    by rewrite list_lookup_fmap, lookup_seq_lt by lia.
  - rewrite Hsent, lookup_app_l by (rewrite length_fmap, length_seq; lia).
    by rewrite list_lookup_fmap, lookup_seq_lt by lia.
  - rewrite Hnext, lookup_app_l by (rewrite length_fmap, length_seq; lia).
    by rewrite list_lookup_fmap, lookup_seq_lt by lia.
  - unfold window_sentence. cbn [self _generate_char_index _text _sentence_char_len blank].
    rewrite <-fmap_drop, <-fmap_take. f_equal.
    apply list_eq. intros k.
    destruct (decide (k < L - step)) as [Hk|Hk].
    + rewrite lookup_drop, !lookup_take_lt, !lookup_drop by lia. f_equal. lia.
    + rewrite lookup_ge_None_2, lookup_ge_None_2; [done| |].
      * rewrite length_take. lia.
      * rewrite length_drop, length_take, length_drop. lia.
  - unfold window_sentence, window_target.
    cbn [self _generate_char_index _text _sentence_char_len blank].
    destruct (lookup_lt_is_Some_2 text (i * step + L)) as [c Hc]; [lia|].
    rewrite Hc. cbn [from_option].
    rewrite list_lookup_fmap, lookup_take_lt, lookup_drop by lia.
    replace (S i * step + (L - step)) with (i * step + L) by lia.
    by rewrite Hc.
Qed.

Lemma windower_windows_overlap_witness :
  ∃ s b1 b2 r, init (cyclic_text 100) 40 3 = Ok s ∧
    _sentences s !! 4 = Some b1 ∧ _sentences s !! 5 = Some b2 ∧
    _next_chars s !! 4 = Some r ∧
    drop 3 b1 = take 37 b2 ∧ b2 !! 37 = Some r.
Proof.
  assert (∃ s, init (cyclic_text 100) 40 3 = Ok s) as [s Hs]
    by (eexists; vm_compute; reflexivity).
  destruct (windower_windows_overlap (cyclic_text 100) 40 3 s 4) as (b1 & b2 & r & H);
    [vm_compute; lia|lia|lia|exact Hs|vm_compute; lia|].
  exists s, b1, b2, r. split; [exact Hs|exact H].
Defined.
Section autoregression.
Context `{Runtime}.
Implicit Types (self : TextGeneration) (w : world).

Lemma encode_window_eq self sentence :
  length sentence ≤ _sentence_char_len self →
  Forall (known self) sentence →
  one_hot_fill self 0 sentence (zeros (_sentence_char_len self) (_num_chars self))
  = Ok (encoded_window self sentence).
Proof.
  intros Hlen Hk.
  pose proof (one_hot_fill_spec self [] sentence
                (zeros (_sentence_char_len self - length sentence) (_num_chars self)) Hk) as Hf.
  cbn [app length] in Hf. unfold zeros in *.
  rewrite <-replicate_add in Hf.
  replace (length sentence + (_sentence_char_len self - length sentence))
    with (_sentence_char_len self) in Hf by lia.
  exact Hf.
Qed.

Lemma generate_chars_trace self d n generated sentence w :
  sampler_ok self →
  40 ≤ _sentence_char_len self →
  length sentence = 40 →
  Forall (known self) sentence →
  ∃ cs w', generate_chars self d n generated sentence w
             = (Ok (generated ++ cs, drop n (sentence ++ cs)), w') ∧
           length cs = n ∧
           stdout w' = stdout w ++ char_events cs ∧
           draws w' = draws w + n ∧
           ∀ k c, cs !! k = Some c →
             sampled self d (draws w + k) (take 40 (drop k (sentence ++ cs))) = Some c.
Proof.
  intros Hsamp HL. revert generated sentence w.
  induction n as [|n IH]; intros generated sentence w Hlen Hk.
  - exists [], w. cbn [generate_chars]. rewrite !app_nil_r. simpl.
    split_and!; [done|done|done|lia|done].
  - cbn [generate_chars].
    rewrite encode_window_eq by (done || lia). rewrite bind_lift_Ok, bind_draw.
    destruct (Hsamp (predict (encoded_window self sentence)) d (draws w)) as (c & Hc & Hkc).
    rewrite Hc. cbn [of_option]. rewrite bind_lift_Ok, !bind_emit.
    destruct (IH (generated ++ [c]) (drop 1 sentence ++ [c])
                (say [StdoutFlush] (say [StdoutWrite [c]] (World (stdout w) (S (draws w))))))
      as (cs & w' & Hgen & Hcs & Hout & Hdr & Htr).
    { rewrite length_app, length_drop. simpl. lia. }
    { apply Forall_app. split; [by apply Forall_drop|by constructor]. }
    destruct sentence as [|c0 sentence]; [simpl in Hlen; lia|].
    exists (c :: cs), w'. rewrite Hgen. split_and!.
    + f_equal. f_equal. f_equal.
      * by rewrite <-app_assoc.
      * simpl. by rewrite drop_0, <-app_assoc.
    + simpl. lia.
    + rewrite Hout. simpl. by rewrite <-!app_assoc.
    + rewrite Hdr. simpl. lia.
    + intros [|k] c' Hk'.
      * injection Hk' as <-. rewrite Nat.add_0_r, drop_0.
        rewrite take_app_length' by done. exact Hc.
      * simpl in Hk'. specialize (Htr k c' Hk'). cbn [draws say] in Htr.
        replace (draws w + S k) with (S (draws w) + k) by lia.
        simpl in Htr |- *. rewrite drop_0, <-app_assoc in Htr. exact Htr.
Qed.

Lemma generation_run_trace self raw_seed seed M d w :
  sampler_ok self →
  40 ≤ _sentence_char_len self →
  length seed = 40 →
  Forall (known self) seed →
  ∃ cs w', generation_run self raw_seed seed M d w = (Ok tt, w') ∧
           length cs = Z.to_nat M ∧
           stdout w' = stdout w ++ run_events raw_seed d cs ∧
           draws w' = draws w + Z.to_nat M ∧
           ∀ k c, cs !! k = Some c →
             sampled self d (draws w + k) (take 40 (drop k (seed ++ cs))) = Some c.
Proof.
  intros Hsamp HL Hlen Hk. unfold generation_run. rewrite !bind_emit.
  destruct (generate_chars_trace self d (Z.to_nat M) ([] ++ seed) seed
              (say [StdoutWrite raw_seed]
                 (say [PrintLine (codes "----- Generating with seed: "
                                    ++ [quote] ++ raw_seed ++ [quote])]
                    (say [PrintDiversity d] w))))
    as (cs & w' & Hgen & Hcs & Hout & Hdr & Htr); [done..|].
  exists cs, (say [PrintLine []] w').
  erewrite bind_Ok by exact Hgen. cbv beta. rewrite emit_run.
  split_and!; [done|done| |done|done].
  unfold say, run_events. simpl. rewrite Hout. simpl. by rewrite <-!app_assoc.
Qed.

Lemma for_py_trace self raw_seed seed M ds w :
  sampler_ok self →
  40 ≤ _sentence_char_len self →
  length seed = 40 →
  Forall (known self) seed →
  ∃ css w', for_py ds (generation_run self raw_seed seed M) w = (Ok tt, w') ∧
            length css = length ds ∧
            stdout w' = stdout w ++ concat (zip_with (run_events raw_seed) ds css) ∧
            draws w' = draws w + length ds * Z.to_nat M ∧
            ∀ j d cs k c, ds !! j = Some d → css !! j = Some cs → cs !! k = Some c →
              sampled self d (draws w + j * Z.to_nat M + k)
                (take 40 (drop k (seed ++ cs))) = Some c.
Proof.
  intros Hsamp HL Hlen Hk. revert w. induction ds as [|d ds IH]; intros w.
  - exists [], w. cbn. rewrite app_nil_r. split_and!; [done|done|done|lia|done].
  - cbn [for_py].
    destruct (generation_run_trace self raw_seed seed M d w)
      as (cs & w1 & Hrun & Hcs & Hout & Hdr & Htr); [done..|].
    destruct (IH w1) as (css & w2 & Hfor & Hcss & Hout2 & Hdr2 & Htr2).
    exists (cs :: css), w2. erewrite bind_Ok by exact Hrun.
    split_and!; [done|simpl; lia| |simpl; lia|].
    + rewrite Hout2, Hout. cbn [zip_with concat]. by rewrite <-!app_assoc.
    + intros [|j] d' cs' k c Hd Hcs' Hk'; simpl in Hd, Hcs'.
      * injection Hd as <-. injection Hcs' as <-.
        rewrite Nat.add_0_r. by apply Htr.
      * specialize (Htr2 j d' cs' k c Hd Hcs' Hk'). rewrite Hdr in Htr2.
        replace (draws w + S j * Z.to_nat M + k)
          with (draws w + Z.to_nat M + j * Z.to_nat M + k) by lia.
        exact Htr2.
Qed.

Lemma init_sampler_ok text L step self :
  init text L step = Ok self →
  (∀ p d n, _sample p d n < _num_chars self) → sampler_ok self.
Proof.
  intros Hinit Hsamp p d n.
  destruct (init_num_chars_lookup _ _ _ _ _ Hinit (Hsamp p d n)) as (c & Hc & Hin).
  exists c. split; [done|]. by eapply init_known.
Qed.

Lemma init_indices_None text L step self i :
  init text L step = Ok self → _num_chars self ≤ i → _indices_char_dict self !! i = None.
Proof.
  intros (_ & _ & Hn & Hi & _)%init_fields Hle. rewrite Hi, indices_char_lookup.
  apply lookup_ge_None. rewrite Hn in Hle. exact Hle.
Qed.

Lemma one_hot_fill_overflow self t chars m :
  Forall (known self) chars →
  Forall (λ row, length row = _num_chars self) m →
  t ≤ length m → length m < t + length chars →
  one_hot_fill self t chars m = Raise IndexError.
Proof.
  intros Hk. revert t m. induction Hk as [|c chars (j & Hj & Hlt) Hk IH];
    intros t m Hrows Ht Hover.
  - simpl in Hover. lia.
  - cbn [one_hot_fill]. rewrite Hj. cbn [of_option mbind result_bind].
    unfold set_entry. destruct (m !! t) as [row|] eqn:Hrow; [|done].
    assert (length row = _num_chars self) as Hr.
    { rewrite Forall_forall in Hrows. apply Hrows. by eapply list_elem_of_lookup_2. }
    rewrite decide_True by lia. cbn [mbind result_bind].
    apply lookup_lt_Some in Hrow.
    apply IH; [|rewrite length_insert; lia|rewrite length_insert; simpl in Hover; lia].
    apply Forall_insert; [done|]. by rewrite length_insert.
Qed.
End autoregression.

(** Property X11.  Generation is autoregressive.  For an object built
    by the constructor with windows of at least forty characters, a sampler
    that returns indices of the vocabulary and a seed whose last forty
    characters occur in the corpus, [generate_text] returns after four runs
    that consume [M] states of the generator each, and the [k]-th character
    of a run is the one sampled, with that run's diversity, from the
    prediction on the last forty characters of the seed followed by the
    characters generated so far. *)
Theorem generate_text_autoregressive `{Runtime} (text : str) (L step : nat)
    (self : TextGeneration) (raw_seed : str) (M : Z) (w : world) :
  init text L step = Ok self →
  40 ≤ L →
  (∀ p d n, _sample p d n < _num_chars self) →
  40 ≤ length (lower raw_seed) →
  Forall (λ c, c ∈ text) (drop (length (lower raw_seed) - 40) (lower raw_seed)) →
  ∃ css w',
    generate_text self (Some raw_seed) M w = (Ok tt, w') ∧
    length css = 4 ∧
    stdout w' = stdout w ++ concat (zip_with (run_events (lower raw_seed)) diversities css) ∧
    draws w' = draws w + 4 * Z.to_nat M ∧
    ∀ j d cs k c, diversities !! j = Some d → css !! j = Some cs → cs !! k = Some c →
      sampled self d (draws w + j * Z.to_nat M + k)
        (take 40 (drop k (drop (length (lower raw_seed) - 40) (lower raw_seed) ++ cs)))
      = Some c.
Proof.
  intros Hinit HL Hsamp Hlen Hvocab.
  pose proof (init_fields _ _ _ _ Hinit) as (HsL & _).
  rewrite generate_text_window by done.
  destruct (for_py_trace self (lower raw_seed)
              (drop (length (lower raw_seed) - 40) (lower raw_seed)) M diversities w)
    as (css & w' & Hfor & Hcss & Hout & Hdr & Htr).
  - by eapply init_sampler_ok.
  - lia.
  - rewrite length_drop. lia.
  - eapply Forall_impl; [exact Hvocab|]. intros c Hc. by eapply init_known.
  - exists css, w'. split_and!; done.
Qed.

Lemma generate_text_autoregressive_witness :
  ∃ (css : list str) w',
    generate_text (H:=ascii_runtime (λ n, n `mod` 18)) example_object
      (Some (codes "He Who Has A Why To Live Can Bear Almost")) 2 (World [] 0) = (Ok tt, w') ∧
    length css = 4 ∧ draws w' = 8.
Proof.
  destruct (generate_text_autoregressive (H:=ascii_runtime (λ n, n `mod` 18)) example_corpus 40 3
              example_object (codes "He Who Has A Why To Live Can Bear Almost") 2 (World [] 0))
    as (css & w' & Hgen & Hlen & _ & Hdr & _).
  - exact example_object_init.
  - lia.
  - intros p d n. change (n `mod` 18 < 18). apply Nat.mod_upper_bound. lia.
  - vm_compute. lia.
  - apply (bool_decide_unpack _). vm_compute. exact I.
  - exists css, w'. split_and!; [exact Hgen|exact Hlen|exact Hdr].
Defined.

Section generation_errors.
Context `{Runtime}.
Implicit Types (self : TextGeneration) (w : world).

Lemma generation_run_bad_index self raw_seed seed M d w :
  40 ≤ _sentence_char_len self → (0 < M)%Z →
  length seed = 40 → Forall (known self) seed →
  (∀ p d n, _indices_char_dict self !! _sample p d n = None) →
  generation_run self raw_seed seed M d w
  = (Raise KeyError, World (stdout w ++ run_header raw_seed d) (S (draws w))).
Proof.
  intros HL HM Hlen Hk Hnone. unfold generation_run. rewrite !bind_emit.
  destruct (Z.to_nat M) as [|n] eqn:Hn; [lia|].
  erewrite bind_Raise.
  2:{ cbn [generate_chars]. rewrite encode_window_eq by (done || lia).
      rewrite bind_lift_Ok, bind_draw, Hnone. cbn [of_option]. apply bind_lift_Raise. }
  unfold say, run_header. simpl. by rewrite <-!app_assoc.
Qed.

Lemma generation_run_overflow self raw_seed seed M d w :
  _sentence_char_len self < 40 → (0 < M)%Z →
  length seed = 40 → Forall (known self) seed →
  generation_run self raw_seed seed M d w
  = (Raise IndexError, World (stdout w ++ run_header raw_seed d) (draws w)).
Proof.
  intros HL HM Hlen Hk. unfold generation_run. rewrite !bind_emit.
  destruct (Z.to_nat M) as [|n] eqn:Hn; [lia|].
  erewrite bind_Raise.
  2:{ cbn [generate_chars].
      rewrite one_hot_fill_overflow; [apply bind_lift_Raise|done| |lia|].
      - apply Forall_replicate. by rewrite length_replicate.
      - unfold zeros. rewrite length_replicate. lia. }
  unfold say, run_header. simpl. by rewrite <-!app_assoc.
Qed.

Lemma written_run_header raw_seed d : written (run_header raw_seed d) = raw_seed.
Proof. unfold run_header. simpl. by rewrite app_nil_r. Qed.
End generation_errors.

(** Property X12.  When the sampler returns an index outside the
    vocabulary, [generate_text] raises [KeyError] at the first character:
    only the seed has been written and one state of the generator has been
    consumed. *)
Theorem generate_text_sampler_out_of_range `{Runtime} (text : str) (L step : nat)
    (self : TextGeneration) (raw_seed : str) (M : Z) (w : world) :
  init text L step = Ok self →
  40 ≤ L →
  (0 < M)%Z →
  40 ≤ length (lower raw_seed) →
  Forall (λ c, c ∈ text) (drop (length (lower raw_seed) - 40) (lower raw_seed)) →
  (∀ p d n, _num_chars self ≤ _sample p d n) →
  ∃ w', generate_text self (Some raw_seed) M w = (Raise KeyError, w') ∧
        written (stdout w') = written (stdout w) ++ lower raw_seed ∧
        draws w' = S (draws w).
Proof.
  intros Hinit HL HM Hlen Hvocab Hsamp.
  pose proof (init_fields _ _ _ _ Hinit) as (HsL & _).
  rewrite generate_text_window by done.
  unfold diversities. cbn [for_py].
  erewrite bind_Raise.
  2:{ apply generation_run_bad_index; [lia|done| | |].
      - rewrite length_drop. lia.
      - eapply Forall_impl; [exact Hvocab|]. intros c Hc. by eapply init_known.
      - intros p d n. by eapply init_indices_None. }
  eexists. split; [reflexivity|]. cbn [stdout draws].
  by rewrite written_app, written_run_header.
Qed.

Lemma generate_text_sampler_out_of_range_witness :
  ∃ w', generate_text (H:=ascii_runtime (λ n, 18 + n)) example_object
          (Some (codes "he who has a why to live can bear almost")) 5 (World [] 0)
        = (Raise KeyError, w') ∧
        written (stdout w') = codes "he who has a why to live can bear almost" ∧
        draws w' = 1.
Proof.
  refine (generate_text_sampler_out_of_range (H:=ascii_runtime (λ n, 18 + n)) example_corpus 40 3
            example_object (codes "he who has a why to live can bear almost") 5 (World [] 0)
            _ _ _ _ _ _).
  - exact example_object_init.
  - lia.
  - lia.
  - vm_compute. lia.
  - apply (bool_decide_unpack _). vm_compute. exact I.
  - intros p d n. change (18 ≤ 18 + n). lia.
Defined.

(** Property X13.  On an object whose window is shorter than the forty
    characters that [generate_text] keeps of the seed, generating at least
    one character raises [IndexError] while the window is encoded: only the
    seed has been written and nothing has been sampled. *)
Theorem generate_text_narrow_window `{Runtime} (text : str) (L step : nat)
    (self : TextGeneration) (raw_seed : str) (M : Z) (w : world) :
  init text L step = Ok self →
  L < 40 →
  (0 < M)%Z →
  40 ≤ length (lower raw_seed) →
  Forall (λ c, c ∈ text) (drop (length (lower raw_seed) - 40) (lower raw_seed)) →
  ∃ w', generate_text self (Some raw_seed) M w = (Raise IndexError, w') ∧
        written (stdout w') = written (stdout w) ++ lower raw_seed ∧
        draws w' = draws w.
Proof.
  intros Hinit HL HM Hlen Hvocab.
  pose proof (init_fields _ _ _ _ Hinit) as (HsL & _).
  rewrite generate_text_window by done.
  unfold diversities. cbn [for_py].
  erewrite bind_Raise.
  2:{ apply generation_run_overflow; [lia|done| |].
      - rewrite length_drop. lia.
      - eapply Forall_impl; [exact Hvocab|]. intros c Hc. by eapply init_known. }
  eexists. split; [reflexivity|]. cbn [stdout draws].
  by rewrite written_app, written_run_header.
Qed.

Lemma generate_text_narrow_window_witness :
  ∃ w', generate_text (H:=ascii_runtime (λ n, 0))
          (match init example_corpus 30 3 with Ok self => self | Raise _ => blank [] 0 end)
          (Some (codes "he who has a why to live can bear almost")) 1 (World [] 0)
        = (Raise IndexError, w') ∧
        written (stdout w') = codes "he who has a why to live can bear almost" ∧
        draws w' = 0.
Proof.
  refine (generate_text_narrow_window (H:=ascii_runtime (λ n, 0)) example_corpus 30 3
            _ (codes "he who has a why to live can bear almost") 1 (World [] 0)
            _ _ _ _ _).
  - vm_compute. reflexivity.
  - lia.
  - lia.
  - vm_compute. lia.
  - apply (bool_decide_unpack _). vm_compute. exact I.
Defined.

Section session.
Context `{Runtime}.
Implicit Types (self : TextGeneration) (w : world) (stdin : list str).

Lemma bind_Ok_inv {A B} (m : py A) (f : A → py B) w b w' :
  (m ≫= f) w = (Ok b, w') → ∃ a w1, m w = (Ok a, w1) ∧ f a w1 = (Ok b, w').
Proof.
  unfold mbind, py_bind. destruct (m w) as [[a|e] w1]; [|done]. eauto.
Qed.

Lemma written_say evs w :
  written evs = [] → written (stdout (say evs w)) = written (stdout w).
Proof. intros He. unfold say. cbn [stdout]. by rewrite written_app, He, app_nil_r. Qed.
End session.

(** Property X14.  The interactive session returns normally only when
    one of the lines it read is "exit". *)
Theorem prompt_returns_only_on_exit `{Runtime} (self : TextGeneration)
    (stdin : list str) (w w' : world) :
  prompt self stdin w = (Ok tt, w') → codes "exit" ∈ stdin.
Proof.
  unfold prompt. generalize (None : option str). intros raw_seed.
  revert raw_seed w. induction stdin as [|line stdin IH]; intros raw_seed w.
  - destruct (prompt_end_of_input self raw_seed w) as [w1 ->]. done.
  - destruct (decide (line = codes "exit")) as [->|Hne]; [intros _; by left|].
    intros Hrun. right. destruct raw_seed as [seed|]; cbn [prompt_loop] in Hrun.
    + rewrite bind_emit, decide_False in Hrun by done.
      destruct (int line) as [n|].
      * destruct (decide (n < 0)%Z).
        -- rewrite bind_emit in Hrun. by eapply IH.
        -- rewrite bind_emit in Hrun.
           apply bind_Ok_inv in Hrun as (? & w1 & _ & Hrun). by eapply IH.
      * rewrite bind_emit in Hrun. by eapply IH.
    + rewrite bind_emit, decide_False in Hrun by done.
      destruct (decide (length line < 40)).
      * rewrite bind_emit in Hrun. by eapply IH.
      * by eapply IH.
Qed.

Lemma prompt_returns_only_on_exit_witness :
  ∃ w', prompt (H:=ascii_runtime (λ _, 0)) example_object
          [codes "abc"; codes "exit"; codes "more"] (World [] 0) = (Ok tt, w') ∧
        codes "exit" ∈ [codes "abc"; codes "exit"; codes "more"].
Proof.
  eexists. split; [vm_compute; reflexivity|].
  refine (prompt_returns_only_on_exit (H:=ascii_runtime (λ _, 0)) example_object
            [codes "abc"; codes "exit"; codes "more"] (World [] 0) _ _).
  vm_compute. reflexivity.
Defined.

(** Property X15.  A session whose lines are all shorter than forty
    characters never generates: it ends with "exit" or with [EOFError] at
    the end of the input, writes nothing with [sys.stdout.write] and
    samples nothing. *)
Theorem prompt_short_lines_never_generate `{Runtime} (self : TextGeneration)
    (stdin : list str) (w : world) :
  Forall (λ line, length line < 40) stdin →
  ∃ w', prompt self stdin w
        = (if decide (codes "exit" ∈ stdin) then Ok tt else Raise EOFError, w') ∧
        written (stdout w') = written (stdout w) ∧
        draws w' = draws w.
Proof.
  unfold prompt. intros Hshort. revert w.
  induction Hshort as [|line stdin Hline Hshort IH]; intros w.
  - eexists. rewrite decide_False by apply not_elem_of_nil.
    cbn [prompt_loop]. rewrite bind_emit. split; [reflexivity|].
    split; [by apply written_say|done].
  - destruct (decide (line = codes "exit")) as [->|Hne].
    + rewrite decide_True by left. rewrite prompt_exit_at_seed.
      eexists. split; [reflexivity|]. split; [by apply written_say|done].
    + rewrite prompt_short_seed_reprompts by done.
      destruct (IH (say [InputPrompt input_text_message; PrintLine seed_too_short] w))
        as (w' & Hrun & Hw & Hd).
      exists w'. split_and!.
      * rewrite Hrun. f_equal.
        destruct (decide (codes "exit" ∈ stdin)) as [Hin|Hin].
        -- rewrite decide_True; [done|by right].
        -- rewrite decide_False; [done|]. by intros [?|?]%elem_of_cons.
      * rewrite Hw. by apply written_say.
      * by rewrite Hd.
Qed.

Lemma prompt_short_lines_never_generate_witness :
  ∃ w', prompt (H:=ascii_runtime (λ _, 0)) example_object
          [codes "abc"; codes "12"; codes "exit"] (World [] 0) = (Ok tt, w') ∧
        written (stdout w') = [] ∧ draws w' = 0.
Proof.
  destruct (prompt_short_lines_never_generate (H:=ascii_runtime (λ _, 0)) example_object
              [codes "abc"; codes "12"; codes "exit"] (World [] 0)) as (w' & Hrun & Hw & Hd).
  - repeat constructor; vm_compute; lia.
  - exists w'. split_and!; [|exact Hw|exact Hd].
    rewrite Hrun. reflexivity.
Defined.

(** Property X16.  Rejected counts keep the seed: after any number of
    lines that are not integers or are negative, an accepted count [n >= 0]
    starts [generate_text] with the seed entered before them, and the
    session has only prompted and printed in between (two events per
    rejected line). *)
Theorem prompt_rejected_counts_keep_seed `{Runtime} (self : TextGeneration)
    (seed : str) (rejected : list str) (line : str) (n : Z) (stdin : list str) (w : world) :
  Forall rejected_count rejected →
  line ≠ codes "exit" → int line = Some n → (0 ≤ n)%Z →
  ∃ evs,
    prompt_loop self (Some seed) (rejected ++ line :: stdin) w
    = (generate_text self (Some seed) n;; prompt_loop self None stdin) (say evs w) ∧
    written evs = [] ∧
    length evs = 2 * length rejected + 2.
Proof.
  intros Hrej Hexit Hint Hn. revert w.
  induction Hrej as [|bad rejected (Hbad & Hcase) Hrej IH]; intros w.
  - exists [InputPrompt input_number_of_characters; PrintLine (codes "Generating text...")].
    split; [|done]. cbn [app prompt_loop].
    rewrite bind_emit, decide_False by done. rewrite Hint.
    rewrite decide_False by lia. by rewrite bind_emit, say_say.
  - cbn [app].
    assert (∃ ev, prompt_loop self (Some seed) (bad :: rejected ++ line :: stdin) w
                  = prompt_loop self (Some seed) (rejected ++ line :: stdin)
                      (say [InputPrompt input_number_of_characters; ev] w) ∧
                  written [InputPrompt input_number_of_characters; ev] = [])
      as (ev & -> & Hev).
    { destruct Hcase as [Hnone|(m & Hm & Hneg)].
      - eexists. split; [by apply prompt_malformed_count_reprompts|done].
      - eexists. split; [by eapply prompt_negative_count_reprompts|done]. }
    destruct (IH (say [InputPrompt input_number_of_characters; ev] w)) as (evs & -> & Hw & Hl).
    exists ([InputPrompt input_number_of_characters; ev] ++ evs).
    rewrite say_say. split_and!; [done| |].
    + by rewrite written_app, Hev, Hw.
    + rewrite length_app. simpl. lia.
Qed.

Lemma prompt_rejected_counts_keep_seed_witness :
  let seed := codes "he who has a why to live can bear almost" in
  ∃ evs,
    prompt_loop (H:=ascii_runtime (λ _, 0)) example_object (Some seed)
      ([codes "x"; codes "-3"] ++ codes "2" :: [codes "exit"]) (World [] 0)
    = (generate_text (H:=ascii_runtime (λ _, 0)) example_object (Some seed) 2;;
       prompt_loop (H:=ascii_runtime (λ _, 0)) example_object None [codes "exit"])
        (say evs (World [] 0)) ∧
    length evs = 6.
Proof.
  intros seed.
  destruct (prompt_rejected_counts_keep_seed (H:=ascii_runtime (λ _, 0)) example_object seed
              [codes "x"; codes "-3"] (codes "2") 2 [codes "exit"] (World [] 0))
    as (evs & Hrun & _ & Hl).
  - constructor; [|constructor; [|constructor]].
    + split; [by vm_compute|left; reflexivity].
    + split; [by vm_compute|right; exists (-3)%Z; split; [reflexivity|lia]].
  - by vm_compute.
  - reflexivity.
  - lia.
  - exists evs. split; [exact Hrun|exact Hl].
Defined.
